(** * ENDEV site scripts: contact form handler and i18n module

    A shallow embedding of the two browser scripts of the repository,
    [contact-form.js] (validation and submission of the contact form through
    EmailJS) and [assets/js/i18n.js] (language detection and translation of
    the page), followed by the properties of the specification proved or
    refuted on that embedding.

    JavaScript strings are sequences of UTF-16 code units, objects are ordered
    property lists, numbers are IEEE 754 doubles.  What the scripts get from
    the browser (the DOM, [localStorage], [navigator], the EmailJS client, the
    outcome of a [fetch]) is explicit state or an explicit argument. *)

From Stdlib Require Import ZArith NArith Lia.
From Stdlib Require Import Floats.PrimFloat Numbers.Cyclic.Int63.Uint63.
From stdpp Require Import base option list strings gmap.

Local Open Scope N_scope.
Set Warnings "-register-all".

(* ===================================================================== *)
(** * JavaScript values *)
(* ===================================================================== *)

Module JS.

(** A string is a list of UTF-16 code units; [length] counts code units, as
    [String.prototype.length] does. *)
Definition jsstring : Type := list N.

(** The code units of an ASCII literal of the source. *)
Definition lit (s : string) : jsstring :=
  map Ascii.N_of_ascii (String.list_ascii_of_string s).

(** ECMAScript WhiteSpace and LineTerminator code points: what
    [String.prototype.trim] strips and what [\s] matches in a regular
    expression. *)
Definition isWhiteSpace (c : N) : bool :=
  (c =? 0x09) || (c =? 0x0A) || (c =? 0x0B) || (c =? 0x0C) || (c =? 0x0D)
  || (c =? 0x20) || (c =? 0xA0) || (c =? 0x1680)
  || ((0x2000 <=? c) && (c <=? 0x200A))
  || (c =? 0x2028) || (c =? 0x2029) || (c =? 0x202F) || (c =? 0x205F)
  || (c =? 0x3000) || (c =? 0xFEFF).

Fixpoint trimStart (s : jsstring) : jsstring :=
  match s with
  | c :: rest => if isWhiteSpace c then trimStart rest else s
  | [] => []
  end.

Definition trimEnd (s : jsstring) : jsstring := rev (trimStart (rev s)).

(** [String.prototype.trim] *)
Definition trim (s : jsstring) : jsstring := trimEnd (trimStart s).

(** [s.split(sep)] for a one-code-unit separator: the pieces between the
    separators, always at least one piece. *)
Fixpoint split (sep : N) (s : jsstring) : list jsstring :=
  match s with
  | [] => [[]]
  | c :: rest =>
      if c =? sep then [] :: split sep rest
      else match split sep rest with
           | piece :: pieces => (c :: piece) :: pieces
           | [] => [[c]]
           end
  end.

Definition isAscii (c : N) : bool := c <? 128.

(** Lower case of an ASCII code unit. *)
Definition asciiLower (c : N) : N :=
  if (0x41 <=? c) && (c <=? 0x5A) then c + 32 else c.

(** Values: the JSON values a translation file can hold, [undefined], and
    the built-in objects of the host (prototype methods, constructors),
    which are opaque and truthy. *)
Inductive JSValue : Type :=
| VUndefined
| VNull
| VBool (b : bool)
| VNumber (x : float)
| VString (s : jsstring)
| VArray (items : list JSValue)
| VObject (props : list (jsstring * JSValue))
| VHost (id : N).

(** What the JavaScript engine supplies and the scripts do not define: the
    members a value inherits from its prototype chain, and the Unicode
    lower-casing of a string that is not ASCII. *)
Record Host : Type := {
  inherited : JSValue -> jsstring -> JSValue;
  lowerCase : jsstring -> jsstring
}.

(** [String.prototype.toLowerCase] *)
Definition toLowerCase (h : Host) (s : jsstring) : jsstring :=
  if forallb isAscii s then map asciiLower s else lowerCase h s.

(** ToBoolean *)
Definition truthy (v : JSValue) : bool :=
  match v with
  | VUndefined | VNull => false
  | VBool b => b
  | VNumber x => negb (PrimFloat.eqb x 0%float) && PrimFloat.eqb x x
  | VString s => negb (bool_decide (s = []))
  | VArray _ | VObject _ | VHost _ => true
  end.

(** Truthiness of a string: every string but the empty one. *)
Definition truthyString (s : jsstring) : bool := truthy (VString s).

(** The first property named [k] of a property list. *)
Fixpoint ownProperty (k : jsstring) (props : list (jsstring * JSValue))
  : option JSValue :=
  match props with
  | [] => None
  | (k', v) :: rest => if bool_decide (k' = k) then Some v else ownProperty k rest
  end.

(** [obj[k] = v] on an ordinary object: the property keeps its place when
    it exists and is appended otherwise. *)
Fixpoint setProperty (k : jsstring) (v : JSValue)
  (props : list (jsstring * JSValue)) : list (jsstring * JSValue) :=
  match props with
  | [] => [(k, v)]
  | (k', v') :: rest =>
      if bool_decide (k' = k) then (k, v) :: rest
      else (k', v') :: setProperty k v rest
  end.

Definition isDigit (c : N) : bool := (0x30 <=? c) && (c <=? 0x39).

(** The index a property name denotes when it is a canonical numeric
    string: decimal digits without a leading zero. *)
Definition arrayIndex (k : jsstring) : option nat :=
  match k with
  | [] => None
  | c :: rest =>
      if forallb isDigit k && implb (c =? 0x30) (bool_decide (rest = []))
      then Some (N.to_nat (fold_left (fun acc d => 10 * acc + (d - 0x30)) k 0))
      else None
  end.

Definition numberOfNat (n : nat) : float :=
  PrimFloat.of_uint63 (Uint63.of_Z (Z.of_nat n)).

(** Property access [v[k]]: own properties first (the members of an object,
    the elements and [length] of an array or a string), then whatever the
    value inherits.  On [undefined] and [null] JavaScript throws a
    TypeError; the scripts test the value before every access. *)
Definition getProp (h : Host) (v : JSValue) (k : jsstring) : JSValue :=
  match v with
  | VUndefined | VNull => VUndefined
  | VObject props =>
      match ownProperty k props with
      | Some x => x
      | None => inherited h v k
      end
  | VArray items =>
      if bool_decide (k = lit "length") then VNumber (numberOfNat (length items))
      else match arrayIndex k ≫= (fun i => items !! i) with
           | Some x => x
           | None => inherited h v k
           end
  | VString s =>
      if bool_decide (k = lit "length") then VNumber (numberOfNat (length s))
      else match arrayIndex k ≫= (fun i => s !! i) with
           | Some c => VString [c]
           | None => inherited h v k
           end
  | VBool _ | VNumber _ | VHost _ => inherited h v k
  end.

(** A host for the examples: every value inherits the members of
    [Object.prototype] as browsers define it, [VHost 0] standing for what is
    found there, and no other name; strings that are not ASCII are left as
    they are.  The examples that use it look up names no prototype defines. *)
Definition objectPrototypeMembers : list jsstring :=
  map lit ["constructor"; "hasOwnProperty"; "isPrototypeOf";
           "propertyIsEnumerable"; "toLocaleString"; "toString"; "valueOf";
           "__proto__"; "__defineGetter__"; "__defineSetter__";
           "__lookupGetter__"; "__lookupSetter__"]%string.

Definition standardHost : Host := {|
  inherited := fun _ k =>
    if bool_decide (k ∈ objectPrototypeMembers) then VHost 0 else VUndefined;
  lowerCase := fun s => s
|}.

End JS.
Export JS.

(* ===================================================================== *)
(** * Regular expressions *)
(* ===================================================================== *)

Module Regex.

(** Regular expressions over code units, matched against a whole string
    (the source anchors its pattern with [^] and [$] and sets no flag). *)
Inductive regex : Type :=
| Void
| Eps
| Class (p : N -> bool)
| Seq (r1 r2 : regex)
| Alt (r1 r2 : regex)
| Star (r : regex).

(** [r+] *)
Definition Plus (r : regex) : regex := Seq r (Star r).

Fixpoint nullable (r : regex) : bool :=
  match r with
  | Void => false
  | Eps => true
  | Class _ => false
  | Seq r1 r2 => nullable r1 && nullable r2
  | Alt r1 r2 => nullable r1 || nullable r2
  | Star _ => true
  end.

(** Brzozowski derivative of [r] by the code unit [c]. *)
Fixpoint deriv (c : N) (r : regex) : regex :=
  match r with
  | Void => Void
  | Eps => Void
  | Class p => if p c then Eps else Void
  | Seq r1 r2 =>
      if nullable r1 then Alt (Seq (deriv c r1) r2) (deriv c r2)
      else Seq (deriv c r1) r2
  | Alt r1 r2 => Alt (deriv c r1) (deriv c r2)
  | Star r1 => Seq (deriv c r1) (Star r1)
  end.

(** [r.test(s)] for an anchored pattern. *)
Definition test (r : regex) (s : jsstring) : bool :=
  nullable (fold_left (fun r c => deriv c r) s r).

End Regex.

(* ===================================================================== *)
(** * contact-form.js *)
(* ===================================================================== *)

Module ContactForm.

(** ** Configuration *)

Record EmailConfig : Type := {
  serviceID : jsstring;
  templateID : jsstring;
  publicKey : jsstring
}.

(** The values of [EMAIL_CONFIG] in the file as it is. *)
Definition shippedConfig : EmailConfig := {|
  serviceID := lit "artesanous";
  templateID := lit "endev001";
  publicKey := lit "LrvW_eq15TU-SfpRs"
|}.

(** The four fields of the form: the keys of [validators], of
    [UI.elements.fields] and of the form data, in the order of the source. *)
Inductive Field : Type := Name | Email | Subject | Message.

#[export] Instance Field_eq_dec : EqDecision Field.
Proof. solve_decision. Defined.

Definition fieldNames : list Field := [Name; Email; Subject; Message].

(** ** Form validation *)

Definition notSpaceNorAt : Regex.regex :=
  Regex.Class (fun c => negb (isWhiteSpace c || (c =? 0x40))).

(** [/^[^\s@]+@[^\s@]+\.[^\s@]+$/] *)
Definition emailRegex : Regex.regex :=
  Regex.Seq (Regex.Plus notSpaceNorAt)
    (Regex.Seq (Regex.Class (N.eqb 0x40))
       (Regex.Seq (Regex.Plus notSpaceNorAt)
          (Regex.Seq (Regex.Class (N.eqb 0x2E))
             (Regex.Plus notSpaceNorAt)))).

(** Each validator returns its error message, or [None] for [null]. *)
Module validators.

Definition name (value : jsstring) : option jsstring :=
  if negb (truthyString value) || (length (trim value) <? 4)%nat
  then Some (lit "Please enter at least 4 characters")
  else None.

Definition email (value : jsstring) : option jsstring :=
  if negb (truthyString value) || negb (Regex.test emailRegex value)
  then Some (lit "Please enter a valid email address")
  else None.

Definition subject (value : jsstring) : option jsstring :=
  if negb (truthyString value) || (length (trim value) <? 4)%nat
  then Some (lit "Please enter at least 4 characters")
  else None.

Definition message (value : jsstring) : option jsstring :=
  if negb (truthyString value) || (length (trim value) <? 10)%nat
  then Some (lit "Please write at least 10 characters")
  else None.

End validators.

(** [validateField(fieldName, value)]: every field name has a validator. *)
Definition validateField (fieldName : Field) (value : jsstring) : option jsstring :=
  match fieldName with
  | Name => validators.name value
  | Email => validators.email value
  | Subject => validators.subject value
  | Message => validators.message value
  end.

Record FormData : Type := {
  fd_name : jsstring;
  fd_email : jsstring;
  fd_subject : jsstring;
  fd_message : jsstring
}.

(** [formData[field]] *)
Definition formDataGet (formData : FormData) (field : Field) : jsstring :=
  match field with
  | Name => fd_name formData
  | Email => fd_email formData
  | Subject => fd_subject formData
  | Message => fd_message formData
  end.

(** The result of [validateForm]; [errors] is the object built by the
    loop, its properties in insertion order. *)
Record Validation : Type := {
  isValid : bool;
  errors : list (Field * jsstring)
}.

(** [errors[field] = error] *)
Fixpoint setError (field : Field) (error : jsstring)
  (errs : list (Field * jsstring)) : list (Field * jsstring) :=
  match errs with
  | [] => [(field, error)]
  | (f, e) :: rest =>
      if bool_decide (f = field) then (field, error) :: rest
      else (f, e) :: setError field error rest
  end.

(** [errors[field]] *)
Fixpoint getError (field : Field) (errs : list (Field * jsstring))
  : option jsstring :=
  match errs with
  | [] => None
  | (f, e) :: rest => if bool_decide (f = field) then Some e else getError field rest
  end.

(** One turn of the [forEach] of [validateForm]. *)
Definition validateStep (formData : FormData) (acc : Validation) (field : Field)
  : Validation :=
  match validateField field (formDataGet formData field) with
  | Some error =>
      if truthyString error
      then {| isValid := false; errors := setError field error (errors acc) |}
      else acc
  | None => acc
  end.

Definition validateForm (formData : FormData) : Validation :=
  fold_left (validateStep formData) fieldNames {| isValid := true; errors := [] |}.

(** [isConfigured()], with the configuration it reads as an argument. *)
Definition isConfigured (EMAIL_CONFIG : EmailConfig) : bool :=
  negb (bool_decide (serviceID EMAIL_CONFIG = lit "YOUR_SERVICE_ID"))
  && negb (bool_decide (templateID EMAIL_CONFIG = lit "YOUR_TEMPLATE_ID"))
  && negb (bool_decide (publicKey EMAIL_CONFIG = lit "YOUR_PUBLIC_KEY")).

(** ** The page *)

(** [style.display] of an element: not set by a script yet, ['block'] or
    ['none']. *)
Inductive Display : Type := DisplayUnset | DisplayBlock | DisplayNone.

(** A status container or a [.validate] container.  [textContent] is the
    value a script assigned; the DOM keeps its string conversion. *)
Record Box : Type := {
  textContent : JSValue;
  display : Display
}.

(** A field of the form: its value, the value [form.reset()] restores,
    whether it carries the class [is-invalid], and the [.validate]
    container next to it when there is one. *)
Record FieldElement : Type := {
  value : jsstring;
  defaultValue : jsstring;
  isInvalid : bool;
  validateDiv : option Box
}.

(** [UI.elements.fields]: what [querySelector] found, [None] for [null]. *)
Record Fields : Type := {
  f_name : option FieldElement;
  f_email : option FieldElement;
  f_subject : option FieldElement;
  f_message : option FieldElement
}.

(** [UI.elements]; the submit button and the three status containers are
    the DOM contract of the form and are taken to exist. *)
Record Elements : Type := {
  submitDisabled : bool;
  loading : Box;
  errorMessage : Box;
  successMessage : Box;
  fields : Fields
}.

(** What a pending [setTimeout] callback hides. *)
Inductive Timer : Type := HideSuccess | HideError.

Record TemplateParams : Type := {
  from_name : jsstring;
  from_email : jsstring;
  tp_subject : jsstring;
  tp_message : jsstring;
  to_email : jsstring
}.

(** A call into the EmailJS client. *)
Inductive EmailjsCall : Type :=
| EmailjsInit (key : jsstring)
| EmailjsSend (service template : jsstring) (params : TemplateParams).

(** The EmailJS library as the page loaded it: whether the global
    [emailjs] is defined and whether its [init] throws. *)
Record EmailjsLibrary : Type := {
  emailjsDefined : bool;
  initThrows : bool
}.

(** How a promise ends. *)
Inductive Settled : Type := Fulfilled | Rejected | Pending.

(** The state the script works on; console output is not modelled. *)
Record Page : Type := {
  elements : Elements;
  initialized : bool;
  emailjsCalls : list EmailjsCall;
  timers : list (N * Timer);
  defaultPrevented : bool
}.

Definition fieldGet (fs : Fields) (field : Field) : option FieldElement :=
  match field with
  | Name => f_name fs
  | Email => f_email fs
  | Subject => f_subject fs
  | Message => f_message fs
  end.

Definition fieldSet (fs : Fields) (field : Field) (el : option FieldElement) : Fields :=
  match field with
  | Name => {| f_name := el; f_email := f_email fs; f_subject := f_subject fs; f_message := f_message fs |}
  | Email => {| f_name := f_name fs; f_email := el; f_subject := f_subject fs; f_message := f_message fs |}
  | Subject => {| f_name := f_name fs; f_email := f_email fs; f_subject := el; f_message := f_message fs |}
  | Message => {| f_name := f_name fs; f_email := f_email fs; f_subject := f_subject fs; f_message := el |}
  end.

Definition withElements (page : Page) (els : Elements) : Page :=
  {| elements := els; initialized := initialized page;
     emailjsCalls := emailjsCalls page; timers := timers page;
     defaultPrevented := defaultPrevented page |}.

Definition withFields (els : Elements) (fs : Fields) : Elements :=
  {| submitDisabled := submitDisabled els; loading := loading els;
     errorMessage := errorMessage els; successMessage := successMessage els;
     fields := fs |}.

Definition withDisplay (box : Box) (d : Display) : Box :=
  {| textContent := textContent box; display := d |}.

(** [setTimeout(callback, delay)] *)
Definition setTimeout (t : Timer) (delay : N) (page : Page) : Page :=
  {| elements := elements page; initialized := initialized page;
     emailjsCalls := emailjsCalls page; timers := timers page ++ [(delay, t)];
     defaultPrevented := defaultPrevented page |}.

(** [message || fallback] *)
Definition orElse (message : JSValue) (fallback : string) : JSValue :=
  if truthy message then message else VString (lit fallback).

(** ** UI feedback *)

Module UI.

Definition hideAllMessages (els : Elements) : Elements :=
  {| submitDisabled := submitDisabled els;
     loading := withDisplay (loading els) DisplayNone;
     errorMessage := withDisplay (errorMessage els) DisplayNone;
     successMessage := withDisplay (successMessage els) DisplayNone;
     fields := fields els |}.

Definition showLoading (els : Elements) : Elements :=
  let els := hideAllMessages els in
  {| submitDisabled := true;
     loading := withDisplay (loading els) DisplayBlock;
     errorMessage := errorMessage els;
     successMessage := successMessage els;
     fields := fields els |}.

Definition hideLoading (els : Elements) : Elements :=
  {| submitDisabled := false;
     loading := withDisplay (loading els) DisplayNone;
     errorMessage := errorMessage els;
     successMessage := successMessage els;
     fields := fields els |}.

Definition showSuccess (message : JSValue) (page : Page) : Page :=
  let els := hideLoading (elements page) in
  let els :=
    {| submitDisabled := submitDisabled els; loading := loading els;
       errorMessage := errorMessage els;
       successMessage :=
         {| textContent := orElse message "Your message has been sent. Thank you!";
            display := DisplayBlock |};
       fields := fields els |} in
  setTimeout HideSuccess 5000 (withElements page els).

Definition showError (message : JSValue) (page : Page) : Page :=
  let els := hideLoading (elements page) in
  let els :=
    {| submitDisabled := submitDisabled els; loading := loading els;
       errorMessage :=
         {| textContent := orElse message "There was an error. Please try again.";
            display := DisplayBlock |};
       successMessage := successMessage els;
       fields := fields els |} in
  setTimeout HideError 5000 (withElements page els).

Definition showFieldError (fieldName : Field) (errorMessage : jsstring)
  (els : Elements) : Elements :=
  match fieldGet (fields els) fieldName with
  | Some field =>
      match validateDiv field with
      | Some _ =>
          let field' :=
            {| value := value field; defaultValue := defaultValue field;
               isInvalid := true;
               validateDiv := Some {| textContent := VString errorMessage;
                                      display := DisplayBlock |} |} in
          withFields els (fieldSet (fields els) fieldName (Some field'))
      | None => els
      end
  | None => els
  end.

(** What [clearFieldErrors] does to one field. *)
Definition clearFieldError (field : option FieldElement) : option FieldElement :=
  match field with
  | None => None
  | Some field =>
      match validateDiv field with
      | Some _ =>
          Some {| value := value field; defaultValue := defaultValue field;
                  isInvalid := false;
                  validateDiv := Some {| textContent := VString [];
                                         display := DisplayNone |} |}
      | None => Some field
      end
  end.

Definition clearFieldErrors (els : Elements) : Elements :=
  withFields els
    (fold_left (fun fs f => fieldSet fs f (clearFieldError (fieldGet fs f)))
       fieldNames (fields els)).

(** [form.reset()] on one field. *)
Definition resetField (field : option FieldElement) : option FieldElement :=
  match field with
  | None => None
  | Some field =>
      Some {| value := defaultValue field; defaultValue := defaultValue field;
              isInvalid := isInvalid field; validateDiv := validateDiv field |}
  end.

Definition resetForm (els : Elements) : Elements :=
  let els :=
    withFields els
      (fold_left (fun fs f => fieldSet fs f (resetField (fieldGet fs f)))
         fieldNames (fields els)) in
  hideAllMessages (clearFieldErrors els).

End UI.

(** ** Email sending *)

Module EmailService.

(** [EmailService.init()]: the new page and the returned boolean. *)
Definition init (EMAIL_CONFIG : EmailConfig) (lib : EmailjsLibrary) (page : Page)
  : Page * bool :=
  if negb (emailjsDefined lib) then (page, false)
  else if negb (isConfigured EMAIL_CONFIG) then (page, false)
  else
    let called :=
      emailjsCalls page ++ [EmailjsInit (publicKey EMAIL_CONFIG)] in
    if initThrows lib then
      ({| elements := elements page; initialized := initialized page;
          emailjsCalls := called; timers := timers page;
          defaultPrevented := defaultPrevented page |}, false)
    else
      ({| elements := elements page; initialized := true;
          emailjsCalls := called; timers := timers page;
          defaultPrevented := defaultPrevented page |}, true).

Definition templateParams (formData : FormData) : TemplateParams :=
  {| from_name := fd_name formData;
     from_email := fd_email formData;
     tp_subject := fd_subject formData;
     tp_message := fd_message formData;
     to_email := lit "contact@endev.us" |}.

(** [EmailService.send(formData)]: the page after the call and how the
    returned promise ends, [outcome] being how the promise of
    [emailjs.send] ends. *)
Definition send (EMAIL_CONFIG : EmailConfig) (formData : FormData)
  (outcome : Settled) (page : Page) : Page * Settled :=
  if negb (initialized page) then (page, Rejected)
  else
    ({| elements := elements page; initialized := initialized page;
        emailjsCalls :=
          emailjsCalls page ++
            [EmailjsSend (serviceID EMAIL_CONFIG) (templateID EMAIL_CONFIG)
               (templateParams formData)];
        timers := timers page;
        defaultPrevented := defaultPrevented page |}, outcome).

End EmailService.

(** ** Form handler *)

(** [UI.elements.fields.x?.value?.trim() || ''] *)
Definition fieldValue (fs : Fields) (field : Field) : jsstring :=
  match fieldGet fs field with
  | Some el => if truthyString (trim (value el)) then trim (value el) else []
  | None => []
  end.

(** The form data [handleSubmit] builds from the fields. *)
Definition readFormData (fs : Fields) : FormData :=
  {| fd_name := fieldValue fs Name;
     fd_email := fieldValue fs Email;
     fd_subject := fieldValue fs Subject;
     fd_message := fieldValue fs Message |}.

(** [window.i18n ? window.i18n.translate(key) : fallback], the lookup of
    the translation module being [translate] when the module is loaded. *)
Definition localized (translate : option (jsstring -> JSValue))
  (key fallback : string) : JSValue :=
  match translate with
  | Some tr => tr (lit key)
  | None => VString (lit fallback)
  end.

(** [ContactForm.setup()] once the form is found and [UI.init] has
    collected its elements. *)
Definition setup (EMAIL_CONFIG : EmailConfig) (lib : EmailjsLibrary) (page : Page)
  : Page :=
  fst (EmailService.init EMAIL_CONFIG lib page).

(** The [blur] listener of a field that exists. *)
Definition handleBlur (fieldName : Field) (page : Page) : Page :=
  match fieldGet (fields (elements page)) fieldName with
  | None => page
  | Some field =>
      match validateField fieldName (value field) with
      | Some error =>
          if truthyString error
          then withElements page (UI.showFieldError fieldName error (elements page))
          else page
      | None =>
          match validateDiv field with
          | Some div =>
              let field' :=
                {| value := value field; defaultValue := defaultValue field;
                   isInvalid := false;
                   validateDiv := Some (withDisplay div DisplayNone) |} in
              withElements page
                (withFields (elements page)
                   (fieldSet (fields (elements page)) fieldName (Some field')))
          | None => page
          end
      end
  end.

(** [ContactForm.handleSubmit(e)].  [translate] is the lookup of
    [window.i18n] when that module is loaded, [outcome] is how the promise
    of [emailjs.send] ends; the continuation of a settled promise runs
    here, after the synchronous part. *)
Definition handleSubmit (EMAIL_CONFIG : EmailConfig)
  (translate : option (jsstring -> JSValue)) (outcome : Settled) (page : Page)
  : Page :=
  let page :=
    {| elements := UI.clearFieldErrors (elements page);
       initialized := initialized page; emailjsCalls := emailjsCalls page;
       timers := timers page; defaultPrevented := true |} in
  let formData := readFormData (fields (elements page)) in
  let validation := validateForm formData in
  if negb (isValid validation) then
    withElements page
      (fold_left
         (fun els field =>
            match getError field (errors validation) with
            | Some error => UI.showFieldError field error els
            | None => els
            end)
         (map fst (errors validation)) (elements page))
  else if negb (isConfigured EMAIL_CONFIG) then
    UI.showError
      (VString (lit "Contact form is not configured yet. Please contact the administrator."))
      page
  else
    let page := withElements page (UI.showLoading (elements page)) in
    let (page, settled) := EmailService.send EMAIL_CONFIG formData outcome page in
    match settled with
    | Fulfilled =>
        let successMsg :=
          localized translate "contact.success_message"
            "Your message has been sent successfully. Thank you!" in
        let page := UI.showSuccess successMsg page in
        withElements page (UI.resetForm (elements page))
    | Rejected =>
        let errorMsg :=
          localized translate "contact.error_message"
            "There was an error sending your message. Please try again later." in
        UI.showError errorMsg page
    | Pending => page
    end.

End ContactForm.

(* ===================================================================== *)
(** * assets/js/i18n.js *)
(* ===================================================================== *)

Module i18n.

(** ** The module and the browser around it *)

Inductive Level : Type := Log | Warn | Error.

(** [navigator.language] and [navigator.userLanguage], [None] when the
    browser does not define them. *)
Record Navigator : Type := {
  language : option jsstring;
  userLanguage : option jsstring
}.

(** An element selected by [[data-i18n]].  [placeholder] is [None] when the
    element has no such attribute.  Attributes and text hold the value a
    script assigned; the DOM keeps its string conversion. *)
Record Element : Type := {
  tagName : jsstring;
  dataI18n : jsstring;
  placeholder : option JSValue;
  textContent : JSValue
}.

(** [selectValue] is the value of [#languageSelect], [None] when the page
    has no such element. *)
Record Document : Type := {
  title : JSValue;
  htmlLang : JSValue;
  tagged : list Element;
  selectValue : option JSValue
}.

(** The mutable properties of the [i18n] object ([currentLanguage],
    [translations]) and what the module reads and writes in the browser.
    [changeListeners] counts the listeners added to the selector. *)
Record World : Type := {
  currentLanguage : jsstring;
  translations : list (jsstring * JSValue);
  localStorage : gmap jsstring jsstring;
  navigator : Navigator;
  document : Document;
  console : list (Level * list JSValue);
  changeListeners : nat
}.

Definition availableLanguages : list jsstring :=
  map lit ["en"; "es"; "fr"; "de"; "pt"]%string.

Definition defaultLanguage : jsstring := lit "en".

(** The module as the script creates it, in a given browser. *)
Definition initial (storage : gmap jsstring jsstring) (nav : Navigator)
  (doc : Document) : World :=
  {| currentLanguage := lit "en";
     translations := [];
     localStorage := storage;
     navigator := nav;
     document := doc;
     console := [];
     changeListeners := 0%nat |}.

(** [Array.prototype.indexOf] on an array of strings. *)
Fixpoint indexOf (x : jsstring) (l : list jsstring) : Z :=
  match l with
  | [] => (-1)%Z
  | y :: rest =>
      if bool_decide (y = x) then 0%Z
      else let i := indexOf x rest in
           if (i =? -1)%Z then (-1)%Z else (i + 1)%Z
  end.

(** How a promise ends. *)
Inductive Promise : Type :=
| Resolved (v : JSValue)
| RejectedWith (error : JSValue)
| Unsettled.

(** What [fetch] of a translation file and the parsing of its body come
    to: the parsed JSON document, a failure (network error, a response that
    is not [ok], a body that is not JSON), or nothing yet. *)
Inductive FetchOutcome : Type :=
| FetchJson (data : JSValue)
| FetchFailed (error : JSValue)
| FetchPending.

(** ** State passing *)

Definition M (A : Type) : Type := World -> A * World.

Definition ret {A : Type} (a : A) : M A := fun w => (a, w).

Definition bind {A B : Type} (m : M A) (k : A -> M B) : M B :=
  fun w => k (fst (m w)) (snd (m w)).

Declare Scope js_scope.
Delimit Scope js_scope with js.
Notation "x <- m ;; k" := (bind m (fun x => k))
  (at level 100, m at next level, right associativity) : js_scope.
Notation "m ;; k" := (bind m (fun _ => k))
  (at level 100, right associativity) : js_scope.
Local Open Scope js_scope.

Definition get : M World := fun w => (w, w).

Definition console_ (level : Level) (args : list JSValue) : M unit :=
  fun w =>
    (tt, {| currentLanguage := currentLanguage w; translations := translations w;
            localStorage := localStorage w; navigator := navigator w;
            document := document w; console := console w ++ [(level, args)];
            changeListeners := changeListeners w |}).

Definition setCurrentLanguage (lang : jsstring) : M unit :=
  fun w =>
    (tt, {| currentLanguage := lang; translations := translations w;
            localStorage := localStorage w; navigator := navigator w;
            document := document w; console := console w;
            changeListeners := changeListeners w |}).

Definition setTranslations (t : list (jsstring * JSValue)) : M unit :=
  fun w =>
    (tt, {| currentLanguage := currentLanguage w; translations := t;
            localStorage := localStorage w; navigator := navigator w;
            document := document w; console := console w;
            changeListeners := changeListeners w |}).

(** [localStorage.setItem(key, value)] *)
Definition setItem (key value : jsstring) : M unit :=
  fun w =>
    (tt, {| currentLanguage := currentLanguage w; translations := translations w;
            localStorage := <[key := value]> (localStorage w);
            navigator := navigator w;
            document := document w; console := console w;
            changeListeners := changeListeners w |}).

Definition setDocument (doc : Document) : M unit :=
  fun w =>
    (tt, {| currentLanguage := currentLanguage w; translations := translations w;
            localStorage := localStorage w; navigator := navigator w;
            document := doc; console := console w;
            changeListeners := changeListeners w |}).

Definition addChangeListener : M unit :=
  fun w =>
    (tt, {| currentLanguage := currentLanguage w; translations := translations w;
            localStorage := localStorage w; navigator := navigator w;
            document := document w; console := console w;
            changeListeners := S (changeListeners w) |}).

Definition str (s : string) : JSValue := VString (lit s).

(** ** The methods of the module *)

(** [a || b] on strings that may be undefined. *)
Definition orString (a : option jsstring) (b : jsstring) : jsstring :=
  match a with
  | Some s => if truthyString s then s else b
  | None => b
  end.

Definition detectLanguage (h : Host) : M jsstring :=
  w <- get ;;
  let fromBrowser : M jsstring :=
    let browserLang :=
      toLowerCase h
        (orString (language (navigator w))
           (orString (userLanguage (navigator w)) (lit "en"))) in
    console_ Log [str "[i18n] Browser language:"; VString browserLang] ;;
    let langCode := hd [] (split 0x2D browserLang) in
    if negb (indexOf langCode availableLanguages =? -1)%Z then ret langCode
    else ret defaultLanguage in
  match localStorage w !! lit "endev_language" with
  | Some savedLang =>
      if truthyString savedLang
         && negb (indexOf savedLang availableLanguages =? -1)%Z
      then
        console_ Log [str "[i18n] Using saved language preference:"; VString savedLang] ;;
        ret savedLang
      else fromBrowser
  | None => fromBrowser
  end.

(** [this.translations[lang]] *)
Definition cached (h : Host) (w : World) (lang : jsstring) : JSValue :=
  getProp h (VObject (translations w)) lang.

(** The continuation of the [fetch] of [loadLanguage]: the dictionary is
    cached under [lang] (a supported code at every call of the source) and
    the promise resolves, or the failure is logged and the promise
    rejects. *)
Definition loadLanguageSettle (lang : jsstring) (outcome : FetchOutcome)
  : M Promise :=
  match outcome with
  | FetchJson data =>
      w <- get ;;
      setTranslations (setProperty lang data (translations w)) ;;
      console_ Log [str "[i18n] Language loaded successfully:"; VString lang] ;;
      ret (Resolved data)
  | FetchFailed error =>
      console_ Error [str "[i18n] Error loading language file:"; error] ;;
      ret (RejectedWith error)
  | FetchPending => ret Unsettled
  end.

(** [loadLanguage(lang)], [outcome] being what the [fetch] it may issue
    comes to. *)
Definition loadLanguage (h : Host) (lang : jsstring) (outcome : FetchOutcome)
  : M Promise :=
  w <- get ;;
  if truthy (cached h w lang) then
    console_ Log [str "[i18n] Language already cached:"; VString lang] ;;
    ret (Resolved (cached h w lang))
  else
    console_ Log [str "[i18n] Loading language file:"; VString lang] ;;
    loadLanguageSettle lang outcome.

(** The loop of [translate]: [keys] are the segments still to follow from
    [value]. *)
Fixpoint translateLoop (h : Host) (key : jsstring) (keys : list jsstring)
  (value : JSValue) : M JSValue :=
  match keys with
  | [] => ret value
  | k :: rest =>
      if truthy value && truthy (getProp h value k)
      then translateLoop h key rest (getProp h value k)
      else
        console_ Warn [str "[i18n] Translation not found for key:"; VString key] ;;
        ret (VString key)
  end.

Definition translate (h : Host) (key : jsstring) : M JSValue :=
  w <- get ;;
  translateLoop h key (split 0x2E key) (cached h w (currentLanguage w)).

(** What the [forEach] of [applyTranslations] does to one element. *)
Definition applyElement (h : Host) (element : Element) : M Element :=
  let key := dataI18n element in
  translation <- translate h key ;;
  if bool_decide (tagName element = lit "INPUT")
     || bool_decide (tagName element = lit "TEXTAREA")
  then
    match placeholder element with
    | Some _ =>
        ret {| tagName := tagName element; dataI18n := dataI18n element;
               placeholder := Some translation;
               textContent := textContent element |}
    | None => ret element
    end
  else
    ret {| tagName := tagName element; dataI18n := dataI18n element;
           placeholder := placeholder element;
           textContent := translation |}.

Fixpoint applyElements (h : Host) (elements : list Element) : M (list Element) :=
  match elements with
  | [] => ret []
  | element :: rest =>
      element' <- applyElement h element ;;
      rest' <- applyElements h rest ;;
      ret (element' :: rest')
  end.

Definition applyTranslations (h : Host) : M unit :=
  console_ Log [str "[i18n] Applying translations..."] ;;
  pageTitle <- translate h (lit "meta.title") ;;
  w <- get ;;
  (if truthy pageTitle then
     setDocument {| title := pageTitle; htmlLang := htmlLang (document w);
                    tagged := tagged (document w);
                    selectValue := selectValue (document w) |}
   else ret tt) ;;
  w <- get ;;
  setDocument {| title := title (document w);
                 htmlLang := VString (currentLanguage w);
                 tagged := tagged (document w);
                 selectValue := selectValue (document w) |} ;;
  w <- get ;;
  elements <- applyElements h (tagged (document w)) ;;
  w <- get ;;
  setDocument {| title := title (document w); htmlLang := htmlLang (document w);
                 tagged := elements;
                 selectValue := selectValue (document w) |} ;;
  console_ Log [str "[i18n] Translations applied to";
                VNumber (numberOfNat (length elements)); str "elements"].

Definition updateLanguageSelector : M unit :=
  w <- get ;;
  match selectValue (document w) with
  | Some _ =>
      setDocument {| title := title (document w); htmlLang := htmlLang (document w);
                     tagged := tagged (document w);
                     selectValue := Some (VString (currentLanguage w)) |}
  | None => ret tt
  end.

Definition setupEventListeners : M unit :=
  w <- get ;;
  match selectValue (document w) with
  | Some _ => addChangeListener
  | None => ret tt
  end.

(** [setLanguage(lang)]; a rejected [loadLanguage] has no handler here. *)
Definition setLanguage (h : Host) (lang : jsstring) (outcome : FetchOutcome)
  : M unit :=
  if (indexOf lang availableLanguages =? -1)%Z then
    console_ Error [str "[i18n] Language not supported:"; VString lang]
  else
    console_ Log [str "[i18n] Changing language to:"; VString lang] ;;
    setCurrentLanguage lang ;;
    setItem (lit "endev_language") lang ;;
    loaded <- loadLanguage h lang outcome ;;
    match loaded with
    | Resolved _ => applyTranslations h ;; updateLanguageSelector
    | RejectedWith _ | Unsettled => ret tt
    end.

(** [init()]; [outcome] is what the fetch of the detected language comes
    to and [fallback] what the fetch of the default language comes to. *)
Definition init (h : Host) (outcome fallback : FetchOutcome) : M unit :=
  console_ Log [str "[i18n] Initializing internationalization..."] ;;
  detectedLang <- detectLanguage h ;;
  setCurrentLanguage detectedLang ;;
  console_ Log [str "[i18n] Detected language:"; VString detectedLang] ;;
  loaded <- loadLanguage h detectedLang outcome ;;
  match loaded with
  | Resolved _ =>
      applyTranslations h ;;
      updateLanguageSelector ;;
      setupEventListeners ;;
      console_ Log [str "[i18n] Initialization complete"]
  | RejectedWith err =>
      console_ Error [str "[i18n] Failed to initialize:"; err] ;;
      loaded' <- loadLanguage h defaultLanguage fallback ;;
      match loaded' with
      | Resolved _ => applyTranslations h
      | RejectedWith _ | Unsettled => ret tt
      end
  | Unsettled => ret tt
  end.

(** The [change] listeners of the selector: each one calls [setLanguage]
    with the selected value. *)
Fixpoint change (h : Host) (listeners : nat) (value : jsstring)
  (outcome : FetchOutcome) : M unit :=
  match listeners with
  | O => ret tt
  | S n => setLanguage h value outcome ;; change h n value outcome
  end.

(** ** Runs of the module *)

(** What can happen to the module: a call of one of its methods, the
    settling of a [fetch] it issued, a [change] event of the selector, and
    the browser changing what the module does not own.  A method called
    with a pending fetch is its synchronous part; what follows later is
    [DoSettle] and the calls of the callbacks. *)
Inductive Action : Type :=
| DoInit (outcome fallback : FetchOutcome)
| DoDetectLanguage
| DoLoadLanguage (lang : jsstring) (outcome : FetchOutcome)
| DoSettle (lang : jsstring) (outcome : FetchOutcome)
| DoTranslate (key : jsstring)
| DoApplyTranslations
| DoSetLanguage (lang : jsstring) (outcome : FetchOutcome)
| DoUpdateLanguageSelector
| DoSetupEventListeners
| DoChange (value : jsstring) (outcome : FetchOutcome)
| DoBrowser (storage : gmap jsstring jsstring) (nav : Navigator) (doc : Document).

Definition step (h : Host) (a : Action) (w : World) : World :=
  match a with
  | DoInit outcome fallback => snd (init h outcome fallback w)
  | DoDetectLanguage => snd (detectLanguage h w)
  | DoLoadLanguage lang outcome => snd (loadLanguage h lang outcome w)
  | DoSettle lang outcome => snd (loadLanguageSettle lang outcome w)
  | DoTranslate key => snd (translate h key w)
  | DoApplyTranslations => snd (applyTranslations h w)
  | DoSetLanguage lang outcome => snd (setLanguage h lang outcome w)
  | DoUpdateLanguageSelector => snd (updateLanguageSelector w)
  | DoSetupEventListeners => snd (setupEventListeners w)
  | DoChange value outcome => snd (change h (changeListeners w) value outcome w)
  | DoBrowser storage nav doc =>
      {| currentLanguage := currentLanguage w; translations := translations w;
         localStorage := storage; navigator := nav; document := doc;
         console := console w; changeListeners := changeListeners w |}
  end.

Definition run (h : Host) (actions : list Action) (w : World) : World :=
  fold_left (fun w a => step h a w) actions w.

End i18n.

(* ===================================================================== *)
(** * Vocabulary of the specification and sample pages *)
(* ===================================================================== *)

(** The trimmed value of a field of the form, empty when the page has no
    such field. *)
Definition trimmedValue (page : ContactForm.Page) (field : ContactForm.Field)
  : jsstring :=
  match ContactForm.fieldGet (ContactForm.fields (ContactForm.elements page)) field with
  | Some el => trim (ContactForm.value el)
  | None => []
  end.

(** The form input record of a page at submit time. *)
Definition submitted (page : ContactForm.Page) : ContactForm.FormData :=
  ContactForm.readFormData (ContactForm.fields (ContactForm.elements page)).

(** The [emailjs.send] call the specification expects of a submission. *)
Definition expectedSend (EMAIL_CONFIG : ContactForm.EmailConfig)
  (page : ContactForm.Page) : ContactForm.EmailjsCall :=
  ContactForm.EmailjsSend
    (ContactForm.serviceID EMAIL_CONFIG) (ContactForm.templateID EMAIL_CONFIG)
    {| ContactForm.from_name := trimmedValue page ContactForm.Name;
       ContactForm.from_email := trimmedValue page ContactForm.Email;
       ContactForm.tp_subject := trimmedValue page ContactForm.Subject;
       ContactForm.tp_message := trimmedValue page ContactForm.Message;
       ContactForm.to_email := lit "contact@endev.us" |}.

(** The banner [handleSubmit] shows when the configuration is incomplete. *)
Definition configurationBanner : ContactForm.Box :=
  {| ContactForm.textContent :=
       VString (lit "Contact form is not configured yet. Please contact the administrator.");
     ContactForm.display := ContactForm.DisplayBlock |}.

(** A configuration holds a placeholder when one of its three identifiers
    is still the value the template of the file ships with. *)
Definition hasPlaceholder (EMAIL_CONFIG : ContactForm.EmailConfig) : Prop :=
  ContactForm.serviceID EMAIL_CONFIG = lit "YOUR_SERVICE_ID"
  \/ ContactForm.templateID EMAIL_CONFIG = lit "YOUR_TEMPLATE_ID"
  \/ ContactForm.publicKey EMAIL_CONFIG = lit "YOUR_PUBLIC_KEY".

(** The code saved in [localStorage]. *)
Definition savedLanguage (w : i18n.World) : option jsstring :=
  i18n.localStorage w !! lit "endev_language".

(** The locale the browser reports: [navigator.language ||
    navigator.userLanguage || 'en']. *)
Definition browserLocale (w : i18n.World) : jsstring :=
  i18n.orString (i18n.language (i18n.navigator w))
    (i18n.orString (i18n.userLanguage (i18n.navigator w)) (lit "en")).

(** The primary subtag of a locale, in lower case: what precedes the first
    hyphen. *)
Definition primarySubtag (h : Host) (locale : jsstring) : jsstring :=
  hd [] (split 0x2D (toLowerCase h locale)).

Definition supported (lang : jsstring) : Prop := lang ∈ i18n.availableLanguages.

(** The dictionary loaded for the current language. *)
Definition dictionary (h : Host) (w : i18n.World) : JSValue :=
  i18n.cached h w (i18n.currentLanguage w).

(** The entry named [k] of a node of a dictionary. *)
Definition entry (v : JSValue) (k : jsstring) : option JSValue :=
  match v with
  | VObject props => ownProperty k props
  | _ => None
  end.

(** The node a path of segments leads to in a dictionary, [None] when a
    segment is missing. *)
Fixpoint lookupPath (v : JSValue) (keys : list jsstring) : option JSValue :=
  match keys with
  | [] => Some v
  | k :: rest =>
      match entry v k with
      | Some v' => lookupPath v' rest
      | None => None
      end
  end.

(** A path has a missing segment the engine does not supply either: the
    segments before it lead to a node that has no entry of that name, and the
    property access at that node yields nothing truthy (no member of a
    string or an array, nothing inherited). *)
Definition missingSegment (h : Host) (v : JSValue) (keys : list jsstring) : Prop :=
  exists prefix k rest v',
    keys = prefix ++ k :: rest
    /\ lookupPath v prefix = Some v'
    /\ entry v' k = None
    /\ truthy (getProp h v' k) = false.

(** The world after the warning [translate] logs for [key]. *)
Definition warned (key : jsstring) (w : i18n.World) : i18n.World :=
  snd (i18n.console_ i18n.Warn
         [i18n.str "[i18n] Translation not found for key:"; VString key] w).

(** The world after the error [setLanguage] logs for [lang]. *)
Definition refused (lang : jsstring) (w : i18n.World) : i18n.World :=
  snd (i18n.console_ i18n.Error
         [i18n.str "[i18n] Language not supported:"; VString lang] w).

(** A computation of the translation module leaves a component [f] of the
    world as it found it. *)
Definition keeps {A B : Type} (f : i18n.World -> B) (m : i18n.M A) : Prop :=
  forall w, f (snd (m w)) = f w.

(** The code the language detection returns. *)
Definition detected (h : Host) (w : i18n.World) : jsstring :=
  fst (i18n.detectLanguage h w).

(** A field of a page, with its [.validate] container. *)
Definition sampleField (v : string) : option ContactForm.FieldElement :=
  Some {| ContactForm.value := lit v; ContactForm.defaultValue := [];
          ContactForm.isInvalid := false;
          ContactForm.validateDiv :=
            Some {| ContactForm.textContent := VString [];
                    ContactForm.display := ContactForm.DisplayUnset |} |}.

Definition sampleBox : ContactForm.Box :=
  {| ContactForm.textContent := VString [];
     ContactForm.display := ContactForm.DisplayUnset |}.

(** A page whose form is filled in, before [setup]. *)
Definition samplePage (name email subject message : string) : ContactForm.Page :=
  {| ContactForm.elements :=
       {| ContactForm.submitDisabled := false;
          ContactForm.loading := sampleBox;
          ContactForm.errorMessage := sampleBox;
          ContactForm.successMessage := sampleBox;
          ContactForm.fields :=
            {| ContactForm.f_name := sampleField name;
               ContactForm.f_email := sampleField email;
               ContactForm.f_subject := sampleField subject;
               ContactForm.f_message := sampleField message |} |};
     ContactForm.initialized := false;
     ContactForm.emailjsCalls := [];
     ContactForm.timers := [];
     ContactForm.defaultPrevented := false |}.

Definition filledPage : ContactForm.Page :=
  samplePage "  Ada Lovelace " "ada@example.org" "Hello" "A message of some length.".

Definition placeholderConfig : ContactForm.EmailConfig :=
  {| ContactForm.serviceID := lit "artesanous";
     ContactForm.templateID := lit "YOUR_TEMPLATE_ID";
     ContactForm.publicKey := lit "LrvW_eq15TU-SfpRs" |}.

(** The EmailJS library when its script loaded, and when it did not. *)
Definition libraryLoaded : ContactForm.EmailjsLibrary :=
  {| ContactForm.emailjsDefined := true; ContactForm.initThrows := false |}.

Definition libraryMissing : ContactForm.EmailjsLibrary :=
  {| ContactForm.emailjsDefined := false; ContactForm.initThrows := false |}.

(** A small page for the translation module. *)
Definition sampleDocument : i18n.Document :=
  {| i18n.title := i18n.str "ENDEV";
     i18n.htmlLang := i18n.str "en";
     i18n.tagged :=
       [ {| i18n.tagName := lit "A"; i18n.dataI18n := lit "nav.home";
            i18n.placeholder := None; i18n.textContent := i18n.str "Home" |} ];
     i18n.selectValue := Some (i18n.str "en") |}.

Definition sampleNavigator (locale : string) : i18n.Navigator :=
  {| i18n.language := Some (lit locale); i18n.userLanguage := None |}.

(** A dictionary without [meta.title], with an empty translation. *)
Definition sampleDictionary : JSValue :=
  VObject [ (lit "nav", VObject [ (lit "home", i18n.str "Home") ]);
            (lit "contact", VObject [ (lit "title", i18n.str "") ]) ].

(** The module with the English dictionary loaded. *)
Definition sampleWorld : i18n.World :=
  {| i18n.currentLanguage := lit "en";
     i18n.translations := [ (lit "en", sampleDictionary) ];
     i18n.localStorage := ∅;
     i18n.navigator := sampleNavigator "en-US";
     i18n.document := sampleDocument;
     i18n.console := [];
     i18n.changeListeners := 0%nat |}.


(* ===================================================================== *)
(** * Vocabulary for the remaining behaviour *)
(* ===================================================================== *)

(** The strings a regular expression denotes. *)
Inductive matches : Regex.regex -> jsstring -> Prop :=
| MatchEps : matches Regex.Eps []
| MatchClass (p : N -> bool) (c : N) : p c = true -> matches (Regex.Class p) [c]
| MatchSeq (r1 r2 : Regex.regex) (s1 s2 : jsstring) :
    matches r1 s1 -> matches r2 s2 -> matches (Regex.Seq r1 r2) (s1 ++ s2)
| MatchAltL (r1 r2 : Regex.regex) (s : jsstring) :
    matches r1 s -> matches (Regex.Alt r1 r2) s
| MatchAltR (r1 r2 : Regex.regex) (s : jsstring) :
    matches r2 s -> matches (Regex.Alt r1 r2) s
| MatchStarNil (r : Regex.regex) : matches (Regex.Star r) []
| MatchStarCons (r : Regex.regex) (s1 s2 : jsstring) :
    matches r s1 -> matches (Regex.Star r) s2 -> matches (Regex.Star r) (s1 ++ s2).

(** A code unit an address part may hold: no white space and no [@]. *)
Definition addressUnit (c : N) : Prop := isWhiteSpace c = false /\ c <> 0x40.

(** A part of an address: not empty, made of such code units. *)
Definition addressPart (s : jsstring) : Prop := s <> [] /\ Forall addressUnit s.

(** The inline error of a field after its validator returned [result]: a
    field without a [.validate] container is left alone; with one, the
    message is shown and the field marked, or the container is emptied and
    hidden and the mark removed. *)
Definition inlineError (result : option jsstring) (el : ContactForm.FieldElement)
  : ContactForm.FieldElement :=
  match ContactForm.validateDiv el with
  | None => el
  | Some _ =>
      {| ContactForm.value := ContactForm.value el;
         ContactForm.defaultValue := ContactForm.defaultValue el;
         ContactForm.isInvalid := bool_decide (is_Some result);
         ContactForm.validateDiv :=
           Some match result with
                | Some error =>
                    {| ContactForm.textContent := VString error;
                       ContactForm.display := ContactForm.DisplayBlock |}
                | None =>
                    {| ContactForm.textContent := VString [];
                       ContactForm.display := ContactForm.DisplayNone |}
                end |}
  end.

(** The errors of a form, field by field in the order of the validators. *)
Definition errorsOf (formData : ContactForm.FormData)
  : list (ContactForm.Field * jsstring) :=
  omap (fun field =>
          match ContactForm.validateField field (ContactForm.formDataGet formData field) with
          | Some error => Some (field, error)
          | None => None
          end)
       ContactForm.fieldNames.

(** A submission goes out: the form is valid, the configuration complete
    and the service initialized. *)
Definition goesOut (EMAIL_CONFIG : ContactForm.EmailConfig) (page : ContactForm.Page)
  : bool :=
  ContactForm.isValid (ContactForm.validateForm (submitted page))
  && ContactForm.isConfigured EMAIL_CONFIG
  && ContactForm.initialized page.

(** The banner a failed send leaves: the message of the translation module
    when it is loaded and has one, a fixed message otherwise. *)
Definition failureBanner (translate : option (jsstring -> JSValue)) : ContactForm.Box :=
  {| ContactForm.textContent :=
       ContactForm.orElse
         (ContactForm.localized translate "contact.error_message"
            "There was an error sending your message. Please try again later.")
         "There was an error. Please try again.";
     ContactForm.display := ContactForm.DisplayBlock |}.

(** A page on which [setup] has not run yet. *)
Definition freshPage (page : ContactForm.Page) : Prop :=
  ContactForm.initialized page = false /\ ContactForm.emailjsCalls page = [].

(** The inline error of a field after [blur], its validator having returned
    [result]: as on submit, but a container that is hidden keeps its text. *)
Definition blurError (result : option jsstring) (el : ContactForm.FieldElement)
  : ContactForm.FieldElement :=
  match ContactForm.validateDiv el with
  | None => el
  | Some div =>
      {| ContactForm.value := ContactForm.value el;
         ContactForm.defaultValue := ContactForm.defaultValue el;
         ContactForm.isInvalid := bool_decide (is_Some result);
         ContactForm.validateDiv :=
           Some match result with
                | Some error =>
                    {| ContactForm.textContent := VString error;
                       ContactForm.display := ContactForm.DisplayBlock |}
                | None =>
                    {| ContactForm.textContent := ContactForm.textContent div;
                       ContactForm.display := ContactForm.DisplayNone |}
                end |}
  end.

(** The value the lookup of [key] returns in the world [w]. *)
Definition translated (h : Host) (w : i18n.World) (key : jsstring) : JSValue :=
  fst (i18n.translate h key w).

(** An element once the translations of [w] are applied to it. *)
Definition translatedElement (h : Host) (w : i18n.World) (el : i18n.Element)
  : i18n.Element :=
  fst (i18n.applyElement h el w).

(** The world [w] with the language [lang] chosen: the active language and
    the saved preference. *)
Definition switched (lang : jsstring) (w w' : i18n.World) : Prop :=
  i18n.currentLanguage w' = lang
  /\ i18n.localStorage w' = <[ lit "endev_language" := lang ]> (i18n.localStorage w).

(* ===================================================================== *)
(** * Field validation *)
(* ===================================================================== *)

Section Validation.

Import ContactForm.

(** A length validator with threshold [n] reports an error exactly when the
    trimmed value is shorter than [n]. *)
Lemma length_rule (n : nat) (value message : jsstring) :
  (0 < n)%nat ->
  is_Some (if negb (truthyString value) || (length (trim value) <? n)%nat
           then Some message else None)
  <-> (length (trim value) < n)%nat.
Proof.
  intros Hn. destruct value as [|c s].
  - simpl. split; [intros _; exact Hn | intros _; eexists; reflexivity].
  - change (truthyString (c :: s)) with true. simpl negb. simpl orb.
    destruct (Nat.ltb_spec (length (trim (c :: s))) n) as [Hlt | Hge].
    + split; [intros _; exact Hlt | intros _; eexists; reflexivity].
    + split; [intros [x Hx]; discriminate | lia].
Qed.

(** C2.  For every string, the name and subject validators return an error
    exactly when the trimmed string has fewer than 4 code units, and the
    message validator exactly when it has fewer than 10; a trimmed length of
    exactly 4 (of exactly 10 for the message) passes with no error. *)
Theorem validators_trimmed_length (value : jsstring) :
  (is_Some (validators.name value) <-> (length (trim value) < 4)%nat)
  /\ (is_Some (validators.subject value) <-> (length (trim value) < 4)%nat)
  /\ (is_Some (validators.message value) <-> (length (trim value) < 10)%nat)
  /\ (length (trim value) = 4%nat ->
      validators.name value = None /\ validators.subject value = None)
  /\ (length (trim value) = 10%nat -> validators.message value = None).
Proof.
  assert (Hname : is_Some (validators.name value) <-> (length (trim value) < 4)%nat)
    by (apply length_rule; lia).
  assert (Hsubject : is_Some (validators.subject value) <-> (length (trim value) < 4)%nat)
    by (apply length_rule; lia).
  assert (Hmessage : is_Some (validators.message value) <-> (length (trim value) < 10)%nat)
    by (apply length_rule; lia).
  split; [exact Hname|]. split; [exact Hsubject|]. split; [exact Hmessage|].
  split.
  - intros H4.
    destruct (validators.name value) eqn:En, (validators.subject value) eqn:Es;
      try (split; reflexivity); exfalso.
    all: try (assert (length (trim value) < 4)%nat
                by (apply Hname; eexists; reflexivity); lia).
    assert (length (trim value) < 4)%nat by (apply Hsubject; eexists; reflexivity).
    lia.
  - intros H10. destruct (validators.message value) eqn:E; [|reflexivity].
    assert (length (trim value) < 10)%nat by (apply Hmessage; eexists; reflexivity).
    lia.
Qed.

(** The boundaries of C2 on concrete inputs, surrounded by white space. *)
Example validators_boundaries :
  validators.name (lit " abc ") <> None
  /\ validators.name (lit " abcd ") = None
  /\ validators.subject (lit "abc") <> None
  /\ validators.subject (lit "abcd") = None
  /\ validators.message (lit "  123456789  ") <> None
  /\ validators.message (lit "  1234567890  ") = None.
Proof. vm_compute. repeat split; discriminate. Qed.

(** The address examples of the specification. *)
Example validators_email_examples :
  validators.email (lit "a@b.co") = None
  /\ validators.email (lit "a@b") <> None
  /\ validators.email (lit "a.com") <> None
  /\ validators.email [] <> None.
Proof. vm_compute. repeat split; discriminate. Qed.

(** The message of a validator is never the empty string, so the test
    [if (error)] of the source is a test for [null]. *)
Lemma validateField_truthy (field : Field) (value error : jsstring) :
  validateField field value = Some error -> truthyString error = true.
Proof.
  destruct field; simpl;
    unfold validators.name, validators.email, validators.subject, validators.message;
    match goal with |- context [if ?c then _ else _] => destruct c end;
    intros H; inversion H; reflexivity.
Qed.

(** C3.  Whole-form validation is invalid if and only if at least one of the
    four field validators returns an error for the value of its field, and
    the error map holds, for every field, exactly what the validator of the
    field returned: an entry with the message when it returned an error, no
    entry otherwise. *)
Theorem validateForm_exact (formData : FormData) :
  (isValid (validateForm formData) = false
   <-> exists field, is_Some (validateField field (formDataGet formData field)))
  /\ (forall field,
        getError field (errors (validateForm formData))
        = validateField field (formDataGet formData field))
  /\ NoDup (map fst (errors (validateForm formData))).
Proof.
  unfold validateForm, fieldNames. cbn [fold_left]. unfold validateStep.
  destruct (validateField Name (formDataGet formData Name)) as [e1|] eqn:H1;
    [rewrite (validateField_truthy _ _ _ H1)|];
  (destruct (validateField Email (formDataGet formData Email)) as [e2|] eqn:H2;
    [rewrite (validateField_truthy _ _ _ H2)|]);
  (destruct (validateField Subject (formDataGet formData Subject)) as [e3|] eqn:H3;
    [rewrite (validateField_truthy _ _ _ H3)|]);
  (destruct (validateField Message (formDataGet formData Message)) as [e4|] eqn:H4;
    [rewrite (validateField_truthy _ _ _ H4)|]);
  simpl;
  (split; [| split]).
  all: try (intros field; destruct field; rewrite ?H1, ?H2, ?H3, ?H4; reflexivity).
  all: try (apply (bool_decide_unpack _); vm_compute; exact I).
  all: split;
    [ intros Hinv; try discriminate;
      first [ exists Name; rewrite H1; eexists; reflexivity
            | exists Email; rewrite H2; eexists; reflexivity
            | exists Subject; rewrite H3; eexists; reflexivity
            | exists Message; rewrite H4; eexists; reflexivity ]
    | intros [field [x Hx]]; try reflexivity; destruct field; congruence ].
Qed.

End Validation.

(* ===================================================================== *)
(** * Submission *)
(* ===================================================================== *)

Section Submission.

Import ContactForm.

(** Clearing the inline errors leaves the value of every field as it is. *)
Lemma fieldGet_clearFieldErrors (els : Elements) (field : Field) :
  fieldGet (fields (UI.clearFieldErrors els)) field
  = UI.clearFieldError (fieldGet (fields els) field).
Proof.
  destruct els as [sd ld em sm [fn fe fs fm]]. destruct field; reflexivity.
Qed.

Lemma fieldValue_trim (fs : Fields) (field : Field) :
  fieldValue fs field
  = match fieldGet fs field with
    | Some el => trim (value el)
    | None => []
    end.
Proof.
  unfold fieldValue. destruct (fieldGet fs field) as [el|]; [|reflexivity].
  destruct (trim (value el)); reflexivity.
Qed.

Lemma fieldValue_clearFieldErrors (els : Elements) (field : Field) :
  fieldValue (fields (UI.clearFieldErrors els)) field = fieldValue (fields els) field.
Proof.
  rewrite !fieldValue_trim, fieldGet_clearFieldErrors.
  destruct (fieldGet (fields els) field) as [el|]; [|reflexivity].
  simpl. destruct (validateDiv el); reflexivity.
Qed.

Lemma readFormData_clearFieldErrors (els : Elements) :
  readFormData (fields (UI.clearFieldErrors els)) = readFormData (fields els).
Proof. unfold readFormData. rewrite !fieldValue_clearFieldErrors. reflexivity. Qed.

(** The form data are the trimmed values of the fields. *)
Lemma submitted_trimmed (page : Page) (field : Field) :
  formDataGet (submitted page) field = trimmedValue page field.
Proof.
  unfold submitted, trimmedValue, readFormData.
  destruct field; simpl; apply fieldValue_trim.
Qed.

Lemma templateParams_submitted (EMAIL_CONFIG : EmailConfig) (page : Page) :
  EmailjsSend (serviceID EMAIL_CONFIG) (templateID EMAIL_CONFIG)
    (EmailService.templateParams (submitted page))
  = expectedSend EMAIL_CONFIG page.
Proof.
  unfold expectedSend, EmailService.templateParams.
  rewrite <- !submitted_trimmed. reflexivity.
Qed.

(** A configuration is complete exactly when it holds no placeholder. *)
Lemma isConfigured_false (EMAIL_CONFIG : EmailConfig) :
  isConfigured EMAIL_CONFIG = false <-> hasPlaceholder EMAIL_CONFIG.
Proof.
  unfold isConfigured, hasPlaceholder.
  repeat case_bool_decide; simpl; intuition congruence.
Qed.

(** What [handleSubmit] does, by the three tests it makes. *)
Lemma handleSubmit_cases (EMAIL_CONFIG : EmailConfig)
  (translate : option (jsstring -> JSValue)) (outcome : Settled) (page : Page) :
  let calls := emailjsCalls (handleSubmit EMAIL_CONFIG translate outcome page) in
  let banner := errorMessage (elements (handleSubmit EMAIL_CONFIG translate outcome page)) in
  (isValid (validateForm (submitted page)) = false -> calls = emailjsCalls page)
  /\ (isValid (validateForm (submitted page)) = true ->
      isConfigured EMAIL_CONFIG = false ->
      calls = emailjsCalls page /\ banner = configurationBanner)
  /\ (isValid (validateForm (submitted page)) = true ->
      isConfigured EMAIL_CONFIG = true ->
      initialized page = false -> calls = emailjsCalls page)
  /\ (isValid (validateForm (submitted page)) = true ->
      isConfigured EMAIL_CONFIG = true ->
      initialized page = true ->
      calls = emailjsCalls page ++ [expectedSend EMAIL_CONFIG page]).
Proof.
  cbv zeta. unfold handleSubmit. cbn [elements fields initialized emailjsCalls].
  rewrite readFormData_clearFieldErrors. fold (submitted page).
  split; [|split; [|split]].
  - intros Hv. rewrite Hv. reflexivity.
  - intros Hv Hc. rewrite Hv, Hc. split; reflexivity.
  - intros Hv Hc Hi. rewrite Hv, Hc. cbn [negb]. unfold EmailService.send.
    cbn [initialized withElements]. rewrite Hi. cbn [negb].
    destruct translate, outcome; reflexivity.
  - intros Hv Hc Hi. rewrite Hv, Hc. cbn [negb]. unfold EmailService.send.
    cbn [initialized withElements]. rewrite Hi. cbn [negb].
    rewrite templateParams_submitted.
    destruct translate, outcome; reflexivity.
Qed.

(** C1, as the code has it.  On submit, [emailjs.send] is called exactly
    once, with the four trimmed field values and the fixed recipient,
    precisely when whole-form validation passes, the configuration is
    complete and the email service was initialized at setup; otherwise it is
    not called.  When an identifier of the configuration is still its
    placeholder it is never called, and the configuration banner is shown
    whenever validation passes. *)
Theorem handleSubmit_sends_once (EMAIL_CONFIG : EmailConfig)
  (translate : option (jsstring -> JSValue)) (outcome : Settled) (page : Page) :
  (isValid (validateForm (submitted page)) = true
   /\ isConfigured EMAIL_CONFIG = true
   /\ initialized page = true ->
   emailjsCalls (handleSubmit EMAIL_CONFIG translate outcome page)
   = emailjsCalls page ++ [expectedSend EMAIL_CONFIG page])
  /\ (~ (isValid (validateForm (submitted page)) = true
         /\ isConfigured EMAIL_CONFIG = true
         /\ initialized page = true) ->
      emailjsCalls (handleSubmit EMAIL_CONFIG translate outcome page)
      = emailjsCalls page)
  /\ (hasPlaceholder EMAIL_CONFIG ->
      emailjsCalls (handleSubmit EMAIL_CONFIG translate outcome page)
      = emailjsCalls page
      /\ (isValid (validateForm (submitted page)) = true ->
          errorMessage (elements (handleSubmit EMAIL_CONFIG translate outcome page))
          = configurationBanner)).
Proof.
  destruct (handleSubmit_cases EMAIL_CONFIG translate outcome page)
    as (Hinvalid & Hplaceholder & Huninit & Hsend).
  cbv zeta in *.
  split; [|split].
  - intros (Hv & Hc & Hi). auto.
  - intros Hnot.
    destruct (isValid (validateForm (submitted page))) eqn:Hv; [|auto].
    destruct (isConfigured EMAIL_CONFIG) eqn:Hc; [|apply Hplaceholder; auto].
    destruct (initialized page) eqn:Hi; [|auto].
    exfalso. apply Hnot. auto.
  - intros Hp. apply isConfigured_false in Hp. split.
    + destruct (isValid (validateForm (submitted page))) eqn:Hv; [|auto].
      apply Hplaceholder; auto.
    + intros Hv. apply Hplaceholder; auto.
Qed.

(** The claim as the specification states it fails: the form is valid and
    the shipped configuration is complete, but the EmailJS script did not
    load, so [setup] leaves the service uninitialized and the submission
    calls nothing; the error banner is shown instead. *)
Lemma handleSubmit_valid_configured_no_send :
  isValid (validateForm (submitted (setup shippedConfig libraryMissing filledPage))) = true
  /\ isConfigured shippedConfig = true
  /\ emailjsCalls
       (handleSubmit shippedConfig None Fulfilled
          (setup shippedConfig libraryMissing filledPage)) = []
  /\ display (errorMessage (elements
       (handleSubmit shippedConfig None Fulfilled
          (setup shippedConfig libraryMissing filledPage)))) = DisplayBlock.
Proof. vm_compute. auto. Qed.

(** The theorem at work: the script loaded, the form is valid, one call. *)
Lemma handleSubmit_sends_once_witness :
  emailjsCalls
    (handleSubmit shippedConfig None Pending
       (setup shippedConfig libraryLoaded filledPage))
  = [ EmailjsInit (lit "LrvW_eq15TU-SfpRs");
      EmailjsSend (lit "artesanous") (lit "endev001")
        {| from_name := lit "Ada Lovelace";
           from_email := lit "ada@example.org";
           tp_subject := lit "Hello";
           tp_message := lit "A message of some length.";
           to_email := lit "contact@endev.us" |} ]
  /\ emailjsCalls
       (handleSubmit placeholderConfig None Pending
          (setup placeholderConfig libraryLoaded filledPage)) = []
  /\ errorMessage (elements
       (handleSubmit placeholderConfig None Pending
          (setup placeholderConfig libraryLoaded filledPage)))
     = configurationBanner.
Proof.
  split; [|split].
  - refine (eq_trans
      (proj1 (handleSubmit_sends_once shippedConfig None Pending
                (setup shippedConfig libraryLoaded filledPage)) _) _).
    + vm_compute. auto.
    + vm_compute. reflexivity.
  - refine (eq_trans
      (proj1 (proj2 (proj2 (handleSubmit_sends_once placeholderConfig None Pending
                (setup placeholderConfig libraryLoaded filledPage))) _)) _).
    + right; left; reflexivity.
    + reflexivity.
  - refine (proj2 (proj2 (proj2 (handleSubmit_sends_once placeholderConfig None Pending
                (setup placeholderConfig libraryLoaded filledPage))) _) _).
    + right; left; reflexivity.
    + vm_compute. reflexivity.
Defined.

(** When the send succeeds, the success banner gets its text and is hidden
    again at once: [resetForm] ends with [hideAllMessages].  The submit
    button is enabled again and one timer is pending. *)
Theorem handleSubmit_success_banner_hidden (EMAIL_CONFIG : EmailConfig)
  (translate : option (jsstring -> JSValue)) (page : Page) :
  isValid (validateForm (submitted page)) = true ->
  isConfigured EMAIL_CONFIG = true ->
  initialized page = true ->
  display (successMessage (elements (handleSubmit EMAIL_CONFIG translate Fulfilled page)))
  = DisplayNone
  /\ textContent (successMessage (elements (handleSubmit EMAIL_CONFIG translate Fulfilled page)))
     = orElse (localized translate "contact.success_message"
                 "Your message has been sent successfully. Thank you!")
         "Your message has been sent. Thank you!"
  /\ submitDisabled (elements (handleSubmit EMAIL_CONFIG translate Fulfilled page)) = false
  /\ timers (handleSubmit EMAIL_CONFIG translate Fulfilled page)
     = timers page ++ [(5000, HideSuccess)].
Proof.
  intros Hv Hc Hi. unfold handleSubmit. cbn [elements fields initialized emailjsCalls].
  rewrite readFormData_clearFieldErrors. fold (submitted page).
  rewrite Hv, Hc. cbn [negb]. unfold EmailService.send.
  cbn [initialized withElements]. rewrite Hi. cbn [negb].
  repeat split; reflexivity.
Qed.

Lemma handleSubmit_success_banner_hidden_witness :
  display (successMessage (elements
    (handleSubmit shippedConfig None Fulfilled
       (setup shippedConfig libraryLoaded filledPage)))) = DisplayNone.
Proof.
  refine (proj1 (handleSubmit_success_banner_hidden shippedConfig None
                   (setup shippedConfig libraryLoaded filledPage) _ _ _));
    vm_compute; reflexivity.
Defined.

End Submission.

(* ===================================================================== *)
(** * The active language *)
(* ===================================================================== *)

Section ActiveLanguage.

Import i18n.
Local Open Scope js_scope.

Variable h : Host.

(** ** Membership in the supported set *)

Lemma indexOf_absent (x : jsstring) (l : list jsstring) :
  indexOf x l = (-1)%Z <-> x ∉ l.
Proof.
  induction l as [|y l IH]; simpl.
  - split; [intros _; apply not_elem_of_nil | reflexivity].
  - case_bool_decide as Hxy.
    + subst y. split; [discriminate | intros Hn; exfalso; apply Hn; left].
    + destruct (Z.eqb_spec (indexOf x l) (-1)) as [Heq | Hne].
      * split; [|reflexivity]. intros _ Hin.
        apply elem_of_cons in Hin as [Hin | Hin]; [congruence|].
        apply IH in Heq. contradiction.
      * assert (Hge : (-1 <= indexOf x l)%Z).
        { clear. induction l as [|z l IHl]; simpl; [lia|].
          case_bool_decide; [lia|].
          destruct (Z.eqb_spec (indexOf x l) (-1)); lia. }
        split; [lia|]. intros Hnin. exfalso. apply Hne, IH.
        intros Hin. apply Hnin. right. exact Hin.
Qed.

Lemma indexOf_supported (lang : jsstring) :
  negb (indexOf lang availableLanguages =? -1)%Z = bool_decide (supported lang).
Proof.
  unfold supported. destruct (Z.eqb_spec (indexOf lang availableLanguages) (-1)) as [Heq|Hne].
  - apply indexOf_absent in Heq. rewrite bool_decide_eq_false_2; auto.
  - rewrite bool_decide_eq_true_2; [reflexivity|].
    destruct (decide (lang ∈ availableLanguages)) as [Hin|Hnin]; [exact Hin|].
    apply indexOf_absent in Hnin. contradiction.
Qed.

Lemma supported_truthy (lang : jsstring) : supported lang -> truthyString lang = true.
Proof.
  unfold supported, availableLanguages. intros Hin.
  destruct lang; [|reflexivity].
  exfalso. revert Hin. vm_compute. intros Hin.
  repeat (apply elem_of_cons in Hin as [Hin|Hin]; [discriminate|]).
  apply elem_of_nil in Hin. exact Hin.
Qed.

Lemma defaultLanguage_supported : supported defaultLanguage.
Proof. unfold supported, defaultLanguage, availableLanguages. simpl. left. Qed.

(** ** What the detection returns *)

Lemma detected_value (w : World) :
  detected h w =
  match savedLanguage w with
  | Some saved =>
      if bool_decide (supported saved) then saved
      else if bool_decide (supported (primarySubtag h (browserLocale w)))
           then primarySubtag h (browserLocale w) else defaultLanguage
  | None =>
      if bool_decide (supported (primarySubtag h (browserLocale w)))
      then primarySubtag h (browserLocale w) else defaultLanguage
  end.
Proof.
  unfold detected, detectLanguage, savedLanguage, bind, get. cbn [fst snd].
  assert (Hbrowser :
    fst ((console_ Log [str "[i18n] Browser language:";
                        VString (toLowerCase h (browserLocale w))] ;;
          (if negb (indexOf (primarySubtag h (browserLocale w)) availableLanguages =? -1)%Z
           then ret (primarySubtag h (browserLocale w))
           else ret defaultLanguage)) w)
    = if bool_decide (supported (primarySubtag h (browserLocale w)))
      then primarySubtag h (browserLocale w) else defaultLanguage).
  { unfold bind. rewrite indexOf_supported.
    destruct (bool_decide (supported (primarySubtag h (browserLocale w)))); reflexivity. }
  destruct (localStorage w !! lit "endev_language") as [saved|]; [|exact Hbrowser].
  rewrite (indexOf_supported saved).
  destruct (decide (supported saved)) as [Hs | Hs].
  - rewrite (bool_decide_eq_true_2 _ Hs), (supported_truthy _ Hs). reflexivity.
  - rewrite (bool_decide_eq_false_2 _ Hs), andb_false_r. exact Hbrowser.
Qed.

Lemma detected_supported (w : World) : supported (detected h w).
Proof.
  rewrite detected_value.
  destruct (savedLanguage w) as [saved|]; repeat case_bool_decide;
    auto using defaultLanguage_supported.
Qed.

(** The detection reads the saved code and the locale only. *)
Lemma detected_console (level : Level) (args : list JSValue) (w : World) :
  detected h (snd (console_ level args w)) = detected h w.
Proof. rewrite !detected_value. reflexivity. Qed.

(** ** What a computation leaves alone *)

Lemma keeps_ret {A B : Type} (f : World -> B) (a : A) : keeps f (ret a).
Proof. intros w. reflexivity. Qed.

Lemma keeps_get {B : Type} (f : World -> B) : keeps f get.
Proof. intros w. reflexivity. Qed.

Lemma keeps_bind {A B C : Type} (f : World -> C) (m : M A) (k : A -> M B) :
  keeps f m -> (forall a, keeps f (k a)) -> keeps f (bind m k).
Proof. intros Hm Hk w. unfold bind. rewrite Hk, Hm. reflexivity. Qed.

Create HintDb keeps.
#[local] Hint Resolve keeps_ret keeps_get : keeps.

(** Splits a computation along its binds and its tests; a primitive keeps
    the component when the two sides are the same term. *)
Ltac keeps :=
  repeat first
    [ progress auto with keeps
    | apply keeps_bind; [|intros ?]
    | solve [unfold keeps; intros; reflexivity]
    | match goal with
      | |- keeps _ (if ?c then _ else _) => destruct c
      | |- keeps _ (match ?x with _ => _ end) => destruct x
      end ].

(** The computations that only write to the console keep every component
    that does not read it. *)
Section OnlyLogs.

Context {B : Type} (f : World -> B).
Hypothesis f_console : forall level args, keeps f (console_ level args).

#[local] Hint Resolve f_console : keeps.

Lemma logs_detectLanguage : keeps f (detectLanguage h).
Proof. unfold detectLanguage. keeps. Qed.

Lemma logs_translateLoop (key : jsstring) (keys : list jsstring) (value : JSValue) :
  keeps f (translateLoop h key keys value).
Proof.
  revert value. induction keys as [|k rest IH]; intros value; simpl; keeps.
Qed.

#[local] Hint Resolve logs_translateLoop : keeps.

Lemma logs_translate (key : jsstring) : keeps f (translate h key).
Proof. unfold translate. keeps. Qed.

#[local] Hint Resolve logs_translate : keeps.

Lemma logs_applyElement (element : Element) : keeps f (applyElement h element).
Proof. unfold applyElement. keeps. Qed.

#[local] Hint Resolve logs_applyElement : keeps.

Lemma logs_applyElements (elements : list Element) :
  keeps f (applyElements h elements).
Proof. induction elements as [|e rest IH]; simpl; keeps. Qed.

End OnlyLogs.

(** ** What leaves the active language alone *)

Lemma keeps_detectLanguage : keeps currentLanguage (detectLanguage h).
Proof. apply logs_detectLanguage. keeps. Qed.

Lemma keeps_translate (key : jsstring) : keeps currentLanguage (translate h key).
Proof. apply logs_translate. keeps. Qed.

Lemma keeps_applyElements (elements : list Element) :
  keeps currentLanguage (applyElements h elements).
Proof. apply logs_applyElements. keeps. Qed.

Lemma keeps_loadLanguageSettle (lang : jsstring) (outcome : FetchOutcome) :
  keeps currentLanguage (loadLanguageSettle lang outcome).
Proof. unfold loadLanguageSettle. keeps. Qed.

#[local] Hint Resolve keeps_detectLanguage keeps_translate keeps_applyElements
  keeps_loadLanguageSettle : keeps.

Lemma keeps_loadLanguage (lang : jsstring) (outcome : FetchOutcome) :
  keeps currentLanguage (loadLanguage h lang outcome).
Proof. unfold loadLanguage. keeps. Qed.

Lemma keeps_applyTranslations : keeps currentLanguage (applyTranslations h).
Proof. unfold applyTranslations. keeps. Qed.

Lemma keeps_updateLanguageSelector : keeps currentLanguage updateLanguageSelector.
Proof. unfold updateLanguageSelector. keeps. Qed.

Lemma keeps_setupEventListeners : keeps currentLanguage setupEventListeners.
Proof. unfold setupEventListeners. keeps. Qed.

#[local] Hint Resolve keeps_loadLanguage keeps_applyTranslations
  keeps_updateLanguageSelector keeps_setupEventListeners : keeps.

(** ** The two assignments *)

(** [setLanguage] rejects a code that is not supported: nothing changes but
    the console. *)
Lemma setLanguage_rejects (lang : jsstring) (outcome : FetchOutcome) (w : World) :
  ~ supported lang -> setLanguage h lang outcome w = (tt, refused lang w).
Proof.
  intros Hn. unfold setLanguage.
  apply indexOf_absent in Hn. rewrite Hn. reflexivity.
Qed.

(** [setLanguage] makes a supported code the active language. *)
Lemma setLanguage_accepts (lang : jsstring) (outcome : FetchOutcome) (w : World) :
  supported lang -> currentLanguage (snd (setLanguage h lang outcome w)) = lang.
Proof.
  intros Hs. unfold setLanguage.
  pose proof (indexOf_supported lang) as Hi.
  rewrite bool_decide_eq_true_2 in Hi by exact Hs.
  apply negb_true_iff in Hi. rewrite Hi.
  unfold bind at 1 2 3. cbn [fst snd].
  match goal with
  | |- currentLanguage (snd (?m ?w')) = _ =>
      assert (Hk : keeps currentLanguage m) by keeps; rewrite (Hk w')
  end.
  reflexivity.
Qed.

(** [init] makes the detected code the active language. *)
Lemma init_currentLanguage (outcome fallback : FetchOutcome) (w : World) :
  currentLanguage (snd (init h outcome fallback w)) = detected h w.
Proof.
  unfold init. unfold bind at 1 2 3. cbn [fst snd].
  match goal with
  | |- currentLanguage (snd (?m ?w')) = _ =>
      assert (Hk : keeps currentLanguage m) by keeps; rewrite (Hk w')
  end.
  cbn [setCurrentLanguage snd currentLanguage].
  apply detected_console.
Qed.

Lemma setLanguage_supported (lang : jsstring) (outcome : FetchOutcome) (w : World) :
  supported (currentLanguage w) ->
  supported (currentLanguage (snd (setLanguage h lang outcome w))).
Proof.
  intros Hw. destruct (decide (supported lang)) as [Hs | Hn].
  - rewrite setLanguage_accepts by exact Hs. exact Hs.
  - rewrite setLanguage_rejects by exact Hn. exact Hw.
Qed.

Lemma change_supported (n : nat) (value : jsstring) (outcome : FetchOutcome) (w : World) :
  supported (currentLanguage w) ->
  supported (currentLanguage (snd (change h n value outcome w))).
Proof.
  revert w. induction n as [|n IH]; intros w Hw; simpl; [exact Hw|].
  unfold bind. apply IH, setLanguage_supported, Hw.
Qed.

(** Every action keeps the active language in the supported set. *)
Lemma step_supported (a : Action) (w : World) :
  supported (currentLanguage w) -> supported (currentLanguage (step h a w)).
Proof.
  intros Hw. destruct a; cbn [step].
  - rewrite init_currentLanguage. apply detected_supported.
  - rewrite keeps_detectLanguage. exact Hw.
  - rewrite keeps_loadLanguage. exact Hw.
  - rewrite keeps_loadLanguageSettle. exact Hw.
  - rewrite keeps_translate. exact Hw.
  - rewrite keeps_applyTranslations. exact Hw.
  - apply setLanguage_supported, Hw.
  - rewrite keeps_updateLanguageSelector. exact Hw.
  - rewrite keeps_setupEventListeners. exact Hw.
  - apply change_supported, Hw.
  - exact Hw.
Qed.

(** A saved code that is supported is what the detection returns. *)
Lemma detected_saved (w : World) (saved : jsstring) :
  savedLanguage w = Some saved -> supported saved -> detected h w = saved.
Proof.
  intros Hsv Hs. rewrite detected_value, Hsv.
  rewrite bool_decide_eq_true_2 by exact Hs. reflexivity.
Qed.

(** Without a saved code that is supported, the locale decides. *)
Lemma detected_locale (w : World) :
  (forall saved, savedLanguage w = Some saved -> ~ supported saved) ->
  detected h w =
  if bool_decide (supported (primarySubtag h (browserLocale w)))
  then primarySubtag h (browserLocale w) else defaultLanguage.
Proof.
  intros Hsv. rewrite detected_value.
  destruct (savedLanguage w) as [saved|]; [|reflexivity].
  rewrite bool_decide_eq_false_2 by (apply Hsv; reflexivity). reflexivity.
Qed.

Lemma nothing_saved (nav : Navigator) (doc : Document) (saved : jsstring) :
  savedLanguage (initial ∅ nav doc) = Some saved -> ~ supported saved.
Proof.
  unfold savedLanguage, initial. cbn [localStorage].
  rewrite lookup_empty. discriminate.
Qed.

(** C4.  Language detection resolves in this order: a saved code that is
    supported wins whatever the browser reports; otherwise the primary
    subtag of the browser locale, compared in lower case, is used when it is
    supported; otherwise the default.  [init] makes the detected code the
    active language.  So a saved ["fr"] yields ["fr"] for every locale, and
    with nothing saved the locale ["de-DE"] yields ["de"] and ["ja-JP"]
    yields the default. *)
Theorem detectLanguage_priority :
  (forall w saved,
     savedLanguage w = Some saved -> supported saved -> detected h w = saved)
  /\ (forall w,
        (forall saved, savedLanguage w = Some saved -> ~ supported saved) ->
        supported (primarySubtag h (browserLocale w)) ->
        detected h w = primarySubtag h (browserLocale w))
  /\ (forall w,
        (forall saved, savedLanguage w = Some saved -> ~ supported saved) ->
        ~ supported (primarySubtag h (browserLocale w)) ->
        detected h w = defaultLanguage)
  /\ (forall w outcome fallback,
        currentLanguage (snd (init h outcome fallback w)) = detected h w)
  /\ (forall nav doc,
        detected h (initial {[ lit "endev_language" := lit "fr" ]} nav doc) = lit "fr")
  /\ (forall doc, detected h (initial ∅ (sampleNavigator "de-DE") doc) = lit "de")
  /\ (forall doc,
        detected h (initial ∅ (sampleNavigator "ja-JP") doc) = defaultLanguage).
Proof.
  repeat apply conj.
  - apply detected_saved.
  - intros w Hsv Hp. rewrite detected_locale by exact Hsv.
    rewrite bool_decide_eq_true_2 by exact Hp. reflexivity.
  - intros w Hsv Hp. rewrite detected_locale by exact Hsv.
    rewrite bool_decide_eq_false_2 by exact Hp. reflexivity.
  - intros w outcome fallback. apply init_currentLanguage.
  - intros nav doc. apply detected_saved.
    + unfold savedLanguage, initial. cbn [localStorage].
      apply lookup_singleton_eq.
    + unfold supported, availableLanguages. simpl. set_solver.
  - intros doc. rewrite detected_locale by apply nothing_saved.
    unfold browserLocale, initial, sampleNavigator.
    cbn [navigator language userLanguage].
    vm_compute. reflexivity.
  - intros doc. rewrite detected_locale by apply nothing_saved.
    unfold browserLocale, initial, sampleNavigator.
    cbn [navigator language userLanguage].
    vm_compute. reflexivity.
Qed.

(** C5.  The active language is always a supported code: the initial value
    is one; the detection returns only supported codes, the default when
    neither the saved code nor the locale is supported; [setLanguage]
    assigns its argument only when it is supported and otherwise leaves the
    active language as it is; every action of the module keeps the
    invariant, and so does every run from the initial state. *)
Theorem currentLanguage_supported :
  (forall storage nav doc, supported (currentLanguage (initial storage nav doc)))
  /\ (forall w, supported (detected h w))
  /\ (forall w,
        (forall saved, savedLanguage w = Some saved -> ~ supported saved) ->
        ~ supported (primarySubtag h (browserLocale w)) ->
        detected h w = defaultLanguage)
  /\ (forall lang outcome w,
        (supported lang /\ currentLanguage (snd (setLanguage h lang outcome w)) = lang)
        \/ (~ supported lang
            /\ currentLanguage (snd (setLanguage h lang outcome w)) = currentLanguage w))
  /\ (forall a w,
        supported (currentLanguage w) -> supported (currentLanguage (step h a w)))
  /\ (forall actions storage nav doc,
        supported (currentLanguage (run h actions (initial storage nav doc)))).
Proof.
  assert (Hinitial : forall storage nav doc,
            supported (currentLanguage (initial storage nav doc))).
  { intros. apply defaultLanguage_supported. }
  repeat apply conj.
  - exact Hinitial.
  - apply detected_supported.
  - intros w Hsv Hp. rewrite detected_locale by exact Hsv.
    rewrite bool_decide_eq_false_2 by exact Hp. reflexivity.
  - intros lang outcome w. destruct (decide (supported lang)) as [Hs | Hn].
    + left. split; [exact Hs | apply setLanguage_accepts, Hs].
    + right. split; [exact Hn|]. rewrite setLanguage_rejects by exact Hn. reflexivity.
  - apply step_supported.
  - intros actions storage nav doc. unfold run.
    generalize (Hinitial storage nav doc).
    generalize (initial storage nav doc).
    induction actions as [|a actions IH]; intros w Hw; simpl; [exact Hw|].
    apply IH, step_supported, Hw.
Qed.

(** C9.  For every code outside the supported set, [setLanguage] logs an
    error and does nothing else: the active language, the saved preference,
    the cached dictionaries and the page are as they were. *)
Theorem setLanguage_unsupported (lang : jsstring) (outcome : FetchOutcome) (w : World) :
  ~ supported lang ->
  currentLanguage (snd (setLanguage h lang outcome w)) = currentLanguage w
  /\ localStorage (snd (setLanguage h lang outcome w)) = localStorage w
  /\ translations (snd (setLanguage h lang outcome w)) = translations w
  /\ document (snd (setLanguage h lang outcome w)) = document w
  /\ changeListeners (snd (setLanguage h lang outcome w)) = changeListeners w
  /\ navigator (snd (setLanguage h lang outcome w)) = navigator w
  /\ console (snd (setLanguage h lang outcome w))
     = console w ++ [(Error, [str "[i18n] Language not supported:"; VString lang])].
Proof.
  intros Hn. rewrite setLanguage_rejects by exact Hn.
  repeat split; reflexivity.
Qed.

End ActiveLanguage.

(** C9 at work: Japanese is not supported. *)
Lemma setLanguage_unsupported_witness :
  i18n.currentLanguage
    (snd (i18n.setLanguage standardHost (lit "ja") i18n.FetchPending sampleWorld))
  = lit "en"
  /\ i18n.translations
       (snd (i18n.setLanguage standardHost (lit "ja") i18n.FetchPending sampleWorld))
     = [ (lit "en", sampleDictionary) ].
Proof.
  assert (Hn : ~ supported (lit "ja")).
  { unfold supported. intros Hin. revert Hin. vm_compute. intros Hin.
    repeat (apply elem_of_cons in Hin as [Hin|Hin]; [discriminate|]).
    apply elem_of_nil in Hin. exact Hin. }
  pose proof (setLanguage_unsupported standardHost (lit "ja") i18n.FetchPending
                sampleWorld Hn) as (Hc & _ & Ht & _).
  split; [exact Hc | exact Ht].
Defined.

(* ===================================================================== *)
(** * Translation lookup *)
(* ===================================================================== *)

Section Lookup.

Import i18n.
Local Open Scope js_scope.

Variable h : Host.

Lemma split_nonempty (sep : N) (s : jsstring) : split sep s <> [].
Proof.
  destruct s as [|c s]; simpl; [discriminate|].
  destruct (c =? sep); [discriminate|].
  destruct (split sep s); discriminate.
Qed.

(** Property access finds the entries of a dictionary node. *)
Lemma getProp_entry (v : JSValue) (k : jsstring) (x : JSValue) :
  entry v k = Some x -> getProp h v k = x.
Proof.
  destruct v; simpl; try discriminate. intros Hx. rewrite Hx. reflexivity.
Qed.

(** The loop gives up with the key and one warning. *)
Lemma translateLoop_gives_up (key k : jsstring) (rest : list jsstring)
  (value : JSValue) (w : World) :
  truthy value && truthy (getProp h value k) = false ->
  translateLoop h key (k :: rest) value w = (VString key, warned key w).
Proof. intros Hf. simpl. rewrite Hf. reflexivity. Qed.

(** A path that leads to a falsy node makes the loop give up, at that node
    or before. *)
Lemma translateLoop_falsy (key : jsstring) (keys : list jsstring)
  (value leaf : JSValue) (w : World) :
  keys <> [] ->
  lookupPath value keys = Some leaf ->
  truthy leaf = false ->
  translateLoop h key keys value w = (VString key, warned key w).
Proof.
  revert value. induction keys as [|k rest IH]; intros value Hne Hpath Hleaf;
    [congruence|].
  simpl in Hpath. destruct (entry value k) as [v'|] eqn:Hentry; [|discriminate].
  destruct (truthy value && truthy (getProp h value k)) eqn:Htest;
    [|apply translateLoop_gives_up, Htest].
  simpl. rewrite Htest, (getProp_entry _ _ _ Hentry).
  destruct rest as [|k' rest'].
  - simpl in Hpath. injection Hpath as ->.
    rewrite (getProp_entry _ _ _ Hentry), Hleaf, andb_false_r in Htest.
    discriminate.
  - apply IH; [discriminate | exact Hpath | exact Hleaf].
Qed.

(** A path with a missing segment that the engine does not supply either
    makes the loop give up, at that segment or before. *)
Lemma translateLoop_missing (key : jsstring) (prefix : list jsstring)
  (k : jsstring) (rest : list jsstring) (value v' : JSValue) (w : World) :
  lookupPath value prefix = Some v' ->
  entry v' k = None ->
  truthy (getProp h v' k) = false ->
  translateLoop h key (prefix ++ k :: rest) value w = (VString key, warned key w).
Proof.
  revert value. induction prefix as [|p prefix IH]; intros value Hpath Hentry Hfalsy.
  - simpl in Hpath. injection Hpath as ->.
    apply translateLoop_gives_up. rewrite Hfalsy. apply andb_false_r.
  - simpl in Hpath. destruct (entry value p) as [x|] eqn:Hp; [|discriminate].
    destruct (truthy value && truthy (getProp h value p)) eqn:Htest;
      [|apply translateLoop_gives_up, Htest].
    change ((p :: prefix) ++ k :: rest) with (p :: (prefix ++ k :: rest)).
    simpl. rewrite Htest, (getProp_entry _ _ _ Hp).
    apply IH; assumption.
Qed.

(** A missing segment that the engine does not supply makes the lookup give
    up. *)
Lemma translate_gives_up (key : jsstring) (w : World) :
  missingSegment h (dictionary h w) (split 0x2E key) ->
  translate h key w = (VString key, warned key w).
Proof.
  intros (prefix & k & rest & v' & Hkeys & Hpath & Hentry & Hfalsy).
  unfold translate, bind, get. cbn [fst snd]. rewrite Hkeys.
  eapply translateLoop_missing; eassumption.
Qed.

(** C10.  For every key whose segments all exist in the current dictionary
    and lead to a falsy value, an empty string for one, the lookup returns
    the key itself and logs the warning of a missing translation: the value
    and the warning are those of a key with a missing segment. *)
Theorem translate_empty_translation (key : jsstring) (leaf : JSValue) (w : World) :
  lookupPath (dictionary h w) (split 0x2E key) = Some leaf ->
  truthy leaf = false ->
  translate h key w = (VString key, warned key w)
  /\ (forall w',
        missingSegment h (dictionary h w') (split 0x2E key) ->
        fst (translate h key w') = fst (translate h key w)
        /\ console (snd (translate h key w')) =
           console w' ++ [(Warn, [str "[i18n] Translation not found for key:"; VString key])]
        /\ console (snd (translate h key w)) =
           console w ++ [(Warn, [str "[i18n] Translation not found for key:"; VString key])]).
Proof.
  intros Hpath Hleaf.
  assert (Hhere : translate h key w = (VString key, warned key w)).
  { unfold translate, bind, get. cbn [fst snd].
    eapply translateLoop_falsy; [apply split_nonempty | exact Hpath | exact Hleaf]. }
  split; [exact Hhere|].
  intros w' Hmissing. rewrite Hhere, (translate_gives_up key w' Hmissing).
  repeat split; reflexivity.
Qed.

(** The lookup of a key with a missing segment returns the key itself and
    logs one warning, when the missing segment does not name a member the
    engine supplies (the length or an index of a string or an array, an
    inherited member). *)
Theorem translate_missing_segment (key : jsstring) (w : World) :
  missingSegment h (dictionary h w) (split 0x2E key) ->
  translate h key w = (VString key, warned key w).
Proof. apply translate_gives_up. Qed.

(** ** The page title *)

(** The value of a lookup does not depend on the console. *)
Lemma translateLoop_value (key : jsstring) (keys : list jsstring) (value : JSValue)
  (w w' : World) :
  fst (translateLoop h key keys value w) = fst (translateLoop h key keys value w').
Proof.
  revert value. induction keys as [|k rest IH]; intros value; simpl; [reflexivity|].
  destruct (truthy value && truthy (getProp h value k)); [apply IH | reflexivity].
Qed.

(** The loop returns a value it found truthy, or the key. *)
Lemma translateLoop_truthy (key : jsstring) (keys : list jsstring) (value : JSValue)
  (w : World) :
  key <> [] -> keys <> [] ->
  truthy (fst (translateLoop h key keys value w)) = true.
Proof.
  intros Hkey. revert value. induction keys as [|k rest IH]; intros value Hne;
    [congruence|].
  simpl. destruct (truthy value && truthy (getProp h value k)) eqn:Htest.
  - destruct rest as [|k' rest']; [|apply IH; discriminate].
    simpl. apply andb_true_iff in Htest. apply Htest.
  - simpl. destruct key; [congruence | reflexivity].
Qed.

Lemma translate_truthy (key : jsstring) (w : World) :
  key <> [] -> truthy (fst (translate h key w)) = true.
Proof.
  intros Hkey. unfold translate, bind, get. cbn [fst snd].
  apply translateLoop_truthy; [exact Hkey | apply split_nonempty].
Qed.

Lemma translate_value (key : jsstring) (level : Level) (args : list JSValue)
  (w : World) :
  fst (translate h key (snd (console_ level args w))) = fst (translate h key w).
Proof.
  unfold translate, bind, get. cbn [fst snd]. apply translateLoop_value.
Qed.

(** [applyTranslations] always assigns the title: the test on [pageTitle]
    never fails. *)
Lemma applyTranslations_title (w : World) :
  title (document (snd (applyTranslations h w)))
  = fst (translate h (lit "meta.title") w).
Proof.
  unfold applyTranslations.
  unfold bind at 1. cbn [fst snd].
  unfold bind at 1.
  rewrite translate_truthy by discriminate.
  rewrite translate_value.
  set (pageTitle := fst (translate h (lit "meta.title") w)).
  set (w2 := snd (translate h (lit "meta.title") _)).
  unfold bind, get. cbn [fst snd setDocument document title console_].
  rewrite (logs_applyElements h document (fun _ _ _ => eq_refl)).
  reflexivity.
Qed.

(** In every world [applyTranslations] makes the result of the lookup of
    [meta.title] the title of the page, and that result is the literal key
    when a segment of [meta.title] is missing. *)
Theorem applyTranslations_sets_title (w : World) :
  title (document (snd (applyTranslations h w)))
  = fst (translate h (lit "meta.title") w)
  /\ (missingSegment h (dictionary h w) (split 0x2E (lit "meta.title")) ->
      title (document (snd (applyTranslations h w))) = VString (lit "meta.title")).
Proof.
  split; [apply applyTranslations_title|].
  intros Hmissing. rewrite applyTranslations_title, (translate_gives_up _ _ Hmissing).
  reflexivity.
Qed.

End Lookup.

(** C10 at work: [contact.title] is translated as the empty string. *)
Lemma translate_empty_translation_witness :
  i18n.translate standardHost (lit "contact.title") sampleWorld
  = (VString (lit "contact.title"), warned (lit "contact.title") sampleWorld).
Proof.
  refine (proj1 (translate_empty_translation standardHost (lit "contact.title")
                   (VString []) sampleWorld _ _)).
  - vm_compute. reflexivity.
  - reflexivity.
Defined.

(** A segment is missing and nothing supplies it. *)
Lemma translate_missing_segment_witness :
  i18n.translate standardHost (lit "nav.about") sampleWorld
  = (VString (lit "nav.about"), warned (lit "nav.about") sampleWorld).
Proof.
  apply (translate_missing_segment standardHost (lit "nav.about") sampleWorld).
  exists [lit "nav"], (lit "about"), [], (VObject [ (lit "home", i18n.str "Home") ]).
  vm_compute. auto.
Defined.

(** C6 on the code.  The path [nav.home.length] has a missing segment:
    [nav.home] is the string ["Home"], which has no entry.  The lookup
    returns the number 4, the length of that string, and logs nothing,
    where the claim has it return the key and log a warning. *)
Theorem translate_builtin_member (h : Host) :
  lookupPath (dictionary h sampleWorld) (split 0x2E (lit "nav.home.length")) = None
  /\ i18n.translate h (lit "nav.home.length") sampleWorld = (VNumber 4, sampleWorld)
  /\ fst (i18n.translate h (lit "nav.home.length") sampleWorld)
     <> VString (lit "nav.home.length").
Proof. vm_compute. repeat split; discriminate. Qed.

(** The same with a member every object inherits: no dictionary has an
    entry [constructor]. *)
Example translate_inherited_member :
  lookupPath (dictionary standardHost sampleWorld) (split 0x2E (lit "constructor")) = None
  /\ fst (i18n.translate standardHost (lit "constructor") sampleWorld) = VHost 0.
Proof. vm_compute. split; reflexivity. Qed.

(** C7 on the code.  The key [nav] names a subtree of the dictionary: the
    lookup returns that object, which is no string. *)
Theorem translate_subtree (h : Host) :
  i18n.translate h (lit "nav") sampleWorld
  = (VObject [ (lit "home", i18n.str "Home") ], sampleWorld)
  /\ (forall s, fst (i18n.translate h (lit "nav") sampleWorld) <> VString s).
Proof. vm_compute. split; [reflexivity | discriminate]. Qed.

(** C8 on the code.  The dictionary has no [meta.title]; the lookup returns
    the key, which is truthy, and [applyTranslations] makes it the title of
    the page, where the claim has the title left as it was. *)
Theorem applyTranslations_title_unresolved :
  lookupPath (dictionary standardHost sampleWorld) (split 0x2E (lit "meta.title")) = None
  /\ fst (i18n.translate standardHost (lit "meta.title") sampleWorld)
     = VString (lit "meta.title")
  /\ i18n.title (i18n.document sampleWorld) = i18n.str "ENDEV"
  /\ i18n.title (i18n.document (snd (i18n.applyTranslations standardHost sampleWorld)))
     = VString (lit "meta.title").
Proof. vm_compute. repeat split. Qed.

(* ===================================================================== *)
(** * The shape of an accepted address *)
(* ===================================================================== *)

Section Address.

Import Regex.

Lemma matches_seq (r1 r2 : regex) (s : jsstring) :
  matches (Seq r1 r2) s <->
  exists s1 s2, s = s1 ++ s2 /\ matches r1 s1 /\ matches r2 s2.
Proof.
  split.
  - intros H. inversion H; subst. eauto.
  - intros (s1 & s2 & -> & H1 & H2). constructor; assumption.
Qed.

Lemma matches_alt (r1 r2 : regex) (s : jsstring) :
  matches (Alt r1 r2) s <-> matches r1 s \/ matches r2 s.
Proof.
  split.
  - intros H. inversion H; subst; auto.
  - intros [H|H]; [apply MatchAltL | apply MatchAltR]; exact H.
Qed.

Lemma nullable_matches (r : regex) : nullable r = true <-> matches r [].
Proof.
  induction r as [| |p|r1 IH1 r2 IH2|r1 IH1 r2 IH2|r IH]; simpl.
  - split; [discriminate | intros H; inversion H].
  - split; [intros _; constructor | reflexivity].
  - split; [discriminate | intros H; inversion H].
  - rewrite andb_true_iff, IH1, IH2, matches_seq. split.
    + intros [H1 H2]. exists [], []. auto.
    + intros (s1 & s2 & Heq & H1 & H2). symmetry in Heq.
      apply app_eq_nil in Heq as [-> ->]. auto.
  - rewrite orb_true_iff, IH1, IH2, matches_alt. reflexivity.
  - split; [intros _; constructor | reflexivity].
Qed.

(** A match of [Star r] on a string that starts with [c] starts with a
    match of [r] that starts with [c]. *)
Lemma matches_star_cons (r : regex) (c : N) (s : jsstring) :
  matches (Star r) (c :: s) ->
  exists s1 s2, s = s1 ++ s2 /\ matches r (c :: s1) /\ matches (Star r) s2.
Proof.
  intros H. remember (Star r) as r' eqn:Hr. remember (c :: s) as s' eqn:Hs.
  revert s Hs. induction H as [| | | | | |r0 s1 s2 H1 _ H2 IH2]; intros t Ht;
    try discriminate.
  injection Hr as ->. destruct s1 as [|c1 s1].
  - simpl in Ht. apply IH2; [reflexivity | exact Ht].
  - simpl in Ht. injection Ht as -> <-. exists s1, s2. auto.
Qed.

Lemma deriv_matches (r : regex) (c : N) (s : jsstring) :
  matches (deriv c r) s <-> matches r (c :: s).
Proof.
  revert s. induction r as [| |p|r1 IH1 r2 IH2|r1 IH1 r2 IH2|r IH]; intros s; simpl.
  - split; intros H; inversion H.
  - split; intros H; inversion H.
  - destruct (p c) eqn:Hp.
    + split; intros H; inversion H; subst; [constructor; exact Hp | constructor].
    + split; intros H; inversion H; subst; congruence.
  - assert (Hseq : matches (Seq r1 r2) (c :: s)
              <-> matches (Seq (deriv c r1) r2) s
                  \/ (matches r1 [] /\ matches r2 (c :: s))).
    { rewrite !matches_seq. split.
      - intros (s1 & s2 & Heq & H1 & H2). destruct s1 as [|c1 s1].
        + right. simpl in Heq. subst. auto.
        + left. simpl in Heq. injection Heq as <- ->.
          exists s1, s2. split; [reflexivity|]. split; [apply IH1; exact H1 | exact H2].
      - intros [(s1 & s2 & -> & H1 & H2) | [H1 H2]].
        + exists (c :: s1), s2. split; [reflexivity|].
          split; [apply IH1; exact H1 | exact H2].
        + exists [], (c :: s). auto. }
    rewrite Hseq. destruct (nullable r1) eqn:Hn.
    + rewrite matches_alt, IH2. apply nullable_matches in Hn. tauto.
    + split; [auto|]. intros [H|[H _]]; [exact H|].
      apply nullable_matches in H. congruence.
  - rewrite !matches_alt, IH1, IH2. reflexivity.
  - rewrite matches_seq. split.
    + intros (s1 & s2 & -> & H1 & H2). apply IH in H1.
      change (c :: s1 ++ s2) with ((c :: s1) ++ s2). constructor; assumption.
    + intros H. apply matches_star_cons in H as (s1 & s2 & -> & H1 & H2).
      exists s1, s2. split; [reflexivity|]. split; [apply IH; exact H1 | exact H2].
Qed.

(** The matcher decides the denotation. *)
Lemma test_matches (r : regex) (s : jsstring) : test r s = true <-> matches r s.
Proof.
  unfold test. revert r. induction s as [|c s IH]; intros r; simpl.
  - apply nullable_matches.
  - rewrite IH. apply deriv_matches.
Qed.

Lemma matches_class_star (p : N -> bool) (s : jsstring) :
  matches (Star (Class p)) s <-> Forall (fun c => p c = true) s.
Proof.
  split.
  - intros H. remember (Star (Class p)) as r eqn:Hr.
    induction H as [| | | | | |r0 s1 s2 H1 _ H2 IH2]; try discriminate.
    + constructor.
    + injection Hr as ->. inversion H1; subst. simpl. constructor; auto.
  - induction 1 as [|c s Hc _ IH]; [constructor|].
    change (c :: s) with ([c] ++ s). constructor; [constructor; exact Hc | exact IH].
Qed.

Lemma matches_unit (x : N) (s : jsstring) :
  matches (Class (N.eqb x)) s <-> s = [x].
Proof.
  split.
  - intros H. inversion H as [|? c Hc| | | | |]; subst.
    apply N.eqb_eq in Hc. subst. reflexivity.
  - intros ->. constructor. apply N.eqb_refl.
Qed.

Lemma matches_class (p : N -> bool) (s : jsstring) :
  matches (Class p) s <-> exists c, s = [c] /\ p c = true.
Proof.
  split.
  - intros H. inversion H; subst. eauto.
  - intros (c & -> & Hc). constructor. exact Hc.
Qed.

Lemma matches_class_plus (p : N -> bool) (s : jsstring) :
  matches (Plus (Class p)) s <-> s <> [] /\ Forall (fun c => p c = true) s.
Proof.
  unfold Plus. rewrite matches_seq. split.
  - intros (s1 & s2 & -> & H1 & H2).
    apply matches_class in H1 as (c & -> & Hc). apply matches_class_star in H2.
    split; [discriminate | constructor; assumption].
  - intros [Hne Hall]. destruct s as [|c s]; [congruence|].
    inversion Hall; subst. exists [c], s. split; [reflexivity|].
    split; [constructor; assumption | apply matches_class_star; assumption].
Qed.

Lemma notSpaceNorAt_unit (c : N) :
  negb (isWhiteSpace c || (c =? 0x40)) = true <-> addressUnit c.
Proof.
  unfold addressUnit. rewrite negb_true_iff, orb_false_iff, N.eqb_neq. reflexivity.
Qed.

Lemma matches_part (s : jsstring) :
  matches (Plus ContactForm.notSpaceNorAt) s <-> addressPart s.
Proof.
  unfold ContactForm.notSpaceNorAt, addressPart. rewrite matches_class_plus.
  split; intros [Hne Hall]; (split; [exact Hne|]);
    eapply Forall_impl; try exact Hall; intros c Hc; apply notSpaceNorAt_unit; exact Hc.
Qed.

Lemma email_accepts_shape (value : jsstring) :
  ContactForm.validators.email value = None
  <-> exists loc domain tld,
        value = loc ++ [0x40] ++ domain ++ [0x2E] ++ tld
        /\ addressPart loc /\ addressPart domain /\ addressPart tld.
Proof.
  unfold ContactForm.validators.email.
  assert (Hshape : test ContactForm.emailRegex value = true
    <-> exists loc domain tld,
        value = loc ++ [0x40] ++ domain ++ [0x2E] ++ tld
        /\ addressPart loc /\ addressPart domain /\ addressPart tld).
  { rewrite test_matches. unfold ContactForm.emailRegex. split.
    - intros H.
      apply matches_seq in H as (loc & s1 & -> & Hloc & H).
      apply matches_seq in H as (at_ & s2 & -> & Hat & H).
      apply matches_seq in H as (domain & s3 & -> & Hdomain & H).
      apply matches_seq in H as (dot & tld & -> & Hdot & Htld).
      apply matches_unit in Hat, Hdot. subst.
      exists loc, domain, tld. rewrite <- !matches_part. auto.
    - intros (loc & domain & tld & -> & Hloc & Hdomain & Htld).
      repeat (constructor; try (apply matches_part; assumption);
              try (apply matches_unit; reflexivity)). }
  rewrite <- Hshape.
  destruct value as [|c s].
  - simpl. split; [discriminate | intros H; vm_compute in H; discriminate].
  - change (truthyString (c :: s)) with true. simpl negb. simpl orb.
    destruct (test ContactForm.emailRegex (c :: s));
      simpl; split; congruence.
Qed.

(** The address validator accepts exactly the strings of the shape
    [local@domain.tld]: three parts that are not empty and hold neither white
    space nor [@], joined by one [@] and a dot; the domain and the last part
    may hold further dots. *)
Theorem validators_email_shape (value : jsstring) :
  ContactForm.validators.email value = None
  <-> exists loc domain tld,
        value = loc ++ [0x40] ++ domain ++ [0x2E] ++ tld
        /\ addressPart loc /\ addressPart domain /\ addressPart tld.
Proof. apply email_accepts_shape. Qed.

End Address.

(* ===================================================================== *)
(** * Validation and surrounding white space *)
(* ===================================================================== *)

Section Trimming.

Import ContactForm.

(** A string starts clean when it is empty or starts with a code unit that
    is not white space. *)
Lemma trimStart_fixed (s : jsstring) :
  trimStart s = s <-> match s with [] => True | c :: _ => isWhiteSpace c = false end.
Proof.
  destruct s as [|c s]; simpl; [tauto|].
  destruct (isWhiteSpace c) eqn:Hc; [|tauto].
  split; [|discriminate]. intros Heq. exfalso.
  assert (Hlen : forall t, (length (trimStart t) <= length t)%nat).
  { clear. induction t as [|d t IH]; simpl; [lia|].
    destruct (isWhiteSpace d); simpl; lia. }
  specialize (Hlen s). rewrite Heq in Hlen. simpl in Hlen. lia.
Qed.

Lemma trimStart_idempotent (s : jsstring) : trimStart (trimStart s) = trimStart s.
Proof.
  induction s as [|c s IH]; simpl; [reflexivity|].
  destruct (isWhiteSpace c) eqn:Hc; [exact IH|]. simpl. rewrite Hc. reflexivity.
Qed.

Lemma trimStart_snoc (s : jsstring) (c : N) :
  isWhiteSpace c = false -> trimStart (s ++ [c]) = trimStart s ++ [c].
Proof.
  intros Hc. induction s as [|d s IH]; simpl; [rewrite Hc; reflexivity|].
  destruct (isWhiteSpace d); [exact IH | reflexivity].
Qed.

Lemma trimEnd_idempotent (s : jsstring) : trimEnd (trimEnd s) = trimEnd s.
Proof. unfold trimEnd. rewrite rev_involutive, trimStart_idempotent. reflexivity. Qed.

(** Trimming the end keeps a clean start. *)
Lemma trimStart_trimEnd (s : jsstring) :
  trimStart s = s -> trimStart (trimEnd s) = trimEnd s.
Proof.
  intros Hs. destruct s as [|c s]; [reflexivity|].
  apply trimStart_fixed in Hs. apply trimStart_fixed.
  unfold trimEnd. simpl rev. rewrite (trimStart_snoc _ _ Hs), rev_app_distr.
  simpl. exact Hs.
Qed.

(** [trim] is idempotent. *)
Lemma trim_idempotent (s : jsstring) : trim (trim s) = trim s.
Proof.
  unfold trim.
  rewrite (trimStart_trimEnd (trimStart s)) by apply trimStart_idempotent.
  apply trimEnd_idempotent.
Qed.

Lemma trimStart_clean (s : jsstring) :
  Forall (fun c => isWhiteSpace c = false) s -> trimStart s = s.
Proof.
  intros H. apply trimStart_fixed. destruct H; [exact I | assumption].
Qed.

(** A string without white space is its own trimmed form. *)
Lemma trim_clean (s : jsstring) :
  Forall (fun c => isWhiteSpace c = false) s -> trim s = s.
Proof.
  intros H. unfold trim, trimEnd. rewrite (trimStart_clean _ H).
  rewrite trimStart_clean; [apply rev_involutive|].
  apply Forall_rev. exact H.
Qed.

(** An accepted address holds no white space. *)
Lemma email_clean (value : jsstring) :
  validators.email value = None -> Forall (fun c => isWhiteSpace c = false) value.
Proof.
  intros H. apply email_accepts_shape in H
    as (loc & domain & tld & -> & [_ Hloc] & [_ Hdomain] & [_ Htld]).
  assert (Hpart : forall s, Forall addressUnit s ->
                            Forall (fun c => isWhiteSpace c = false) s).
  { intros s Hs. eapply Forall_impl; [exact Hs|]. intros c [Hc _]. exact Hc. }
  repeat (apply Forall_app; split); auto; repeat constructor.
Qed.

(** The three length validators see a value and its trimmed form alike. *)
Lemma length_rule_trim (n : nat) (value message : jsstring) :
  (0 < n)%nat ->
  (if negb (truthyString (trim value)) || (length (trim (trim value)) <? n)%nat
   then Some message else None)
  = (if negb (truthyString value) || (length (trim value) <? n)%nat
     then Some message else None).
Proof.
  intros Hn. rewrite trim_idempotent.
  destruct (trim value) as [|c t] eqn:Ht.
  - simpl. destruct n; [lia|]. rewrite orb_true_r. reflexivity.
  - destruct value as [|d v]; [discriminate|]. reflexivity.
Qed.

(** Validation does not depend on surrounding white space for the name, the
    subject and the message, so the check on [blur] (the value as typed) and
    the check on submit (the trimmed value) agree on them; for the address
    the check on [blur] is the stricter one.  A field that passes on [blur]
    passes on submit. *)
Theorem validateField_trim (field : Field) (value : jsstring) :
  (field <> Email -> validateField field (trim value) = validateField field value)
  /\ (validateField field value = None -> validateField field (trim value) = None)
  /\ (validateField Email (trim value) = None ->
      validateField Email value = None <-> trim value = value).
Proof.
  assert (Hlen : field <> Email ->
                 validateField field (trim value) = validateField field value).
  { intros Hf. destruct field; try congruence; simpl;
      unfold validators.name, validators.subject, validators.message;
      apply length_rule_trim; lia. }
  split; [exact Hlen|]. split.
  - intros Hv. destruct (decide (field = Email)) as [-> | Hf].
    + simpl in *. rewrite (trim_clean _ (email_clean _ Hv)). exact Hv.
    + rewrite Hlen by exact Hf. exact Hv.
  - simpl. intros Ht. split.
    + intros Hv. apply trim_clean, email_clean, Hv.
    + intros Heq. rewrite <- Heq. exact Ht.
Qed.

End Trimming.

(* ===================================================================== *)
(** * What a submission does to the page *)
(* ===================================================================== *)

Section SubmissionEffects.

Import ContactForm.

(** The error map lists the failing fields in the order of the validators. *)
Lemma validateForm_errors (formData : FormData) :
  errors (validateForm formData) = errorsOf formData
  /\ isValid (validateForm formData) = bool_decide (errorsOf formData = []).
Proof.
  unfold validateForm, errorsOf, fieldNames, validateStep.
  cbn -[validateField formDataGet truthyString].
  destruct (validateField Name (formDataGet formData Name)) as [e1|] eqn:H1;
    [rewrite (validateField_truthy _ _ _ H1)|];
  (destruct (validateField Email (formDataGet formData Email)) as [e2|] eqn:H2;
    [rewrite (validateField_truthy _ _ _ H2)|]);
  (destruct (validateField Subject (formDataGet formData Subject)) as [e3|] eqn:H3;
    [rewrite (validateField_truthy _ _ _ H3)|]);
  (destruct (validateField Message (formDataGet formData Message)) as [e4|] eqn:H4;
    [rewrite (validateField_truthy _ _ _ H4)|]);
  simpl; split; reflexivity.
Qed.

(** A valid form has no failing field. *)
Lemma validateForm_valid (formData : FormData) (field : Field) :
  isValid (validateForm formData) = true ->
  validateField field (formDataGet formData field) = None.
Proof.
  destruct (validateForm_errors formData) as [_ Hv]. rewrite Hv.
  intros He. apply bool_decide_eq_true in He. revert He.
  unfold errorsOf, fieldNames. cbn -[validateField formDataGet].
  destruct (validateField Name (formDataGet formData Name)) eqn:H1;
  destruct (validateField Email (formDataGet formData Email)) eqn:H2;
  destruct (validateField Subject (formDataGet formData Subject)) eqn:H3;
  destruct (validateField Message (formDataGet formData Message)) eqn:H4;
  simpl; try discriminate; intros _; destruct field; assumption.
Qed.

Lemma fieldGet_showFieldError (fieldName : Field) (error : jsstring)
  (els : Elements) (field : Field) :
  fieldGet (fields (UI.showFieldError fieldName error els)) field
  = if bool_decide (field = fieldName)
    then inlineError (Some error) <$> fieldGet (fields els) field
    else fieldGet (fields els) field.
Proof.
  destruct els as [sd ld em sm [fn fe fs fm]].
  unfold UI.showFieldError, inlineError.
  destruct fieldName, field; simpl;
    repeat match goal with
           | |- context [match ?x with _ => _ end] =>
               match type of x with
               | option FieldElement => destruct x as [[? ? ? [?|]]|]
               end
           end; reflexivity.
Qed.

Lemma fieldGet_resetForm (els : Elements) (field : Field) :
  fieldGet (fields (UI.resetForm els)) field
  = UI.clearFieldError (UI.resetField (fieldGet (fields els) field)).
Proof.
  destruct els as [sd ld em sm [fn fe fs fm]]. destruct field; reflexivity.
Qed.

Lemma clearFieldError_inlineError (field : option FieldElement) :
  UI.clearFieldError field = inlineError None <$> field.
Proof. destruct field as [[v d i [b|]]|]; reflexivity. Qed.

(** Showing an inline error touches the fields only. *)
Lemma showFieldError_status (fieldName : Field) (error : jsstring) (els : Elements) :
  submitDisabled (UI.showFieldError fieldName error els) = submitDisabled els
  /\ loading (UI.showFieldError fieldName error els) = loading els
  /\ errorMessage (UI.showFieldError fieldName error els) = errorMessage els
  /\ successMessage (UI.showFieldError fieldName error els) = successMessage els.
Proof.
  unfold UI.showFieldError.
  destruct (fieldGet (fields els) fieldName) as [[v d i [b|]]|];
    repeat split; reflexivity.
Qed.

(** The fields after the inline errors of an error list are shown. *)
Lemma fieldGet_showErrors (errs : list (Field * jsstring)) (keys : list Field)
  (els : Elements) (field : Field) :
  fieldGet (fields
    (fold_left
       (fun els field =>
          match getError field errs with
          | Some error => UI.showFieldError field error els
          | None => els
          end) keys els)) field
  = match getError field errs with
    | Some error =>
        if bool_decide (field ∈ keys)
        then inlineError (Some error) <$> fieldGet (fields els) field
        else fieldGet (fields els) field
    | None => fieldGet (fields els) field
    end.
Proof.
  revert els. induction keys as [|k keys IH]; intros els; simpl.
  - destruct (getError field errs); reflexivity.
  - rewrite IH. destruct (getError field errs) as [error|] eqn:Hf.
    + destruct (decide (field = k)) as [-> | Hne].
      * rewrite Hf, fieldGet_showFieldError.
        rewrite (bool_decide_eq_true_2 (k = k)) by reflexivity.
        rewrite (bool_decide_eq_true_2 (k ∈ k :: keys)) by left.
        destruct (bool_decide (k ∈ keys)); [|reflexivity].
        destruct (fieldGet (fields els) k) as [[v d i [b|]]|]; reflexivity.
      * assert (Hk : fieldGet (fields
                  match getError k errs with
                  | Some error0 => UI.showFieldError k error0 els
                  | None => els
                  end) field = fieldGet (fields els) field).
        { destruct (getError k errs); [|reflexivity].
          rewrite fieldGet_showFieldError.
          rewrite bool_decide_eq_false_2 by exact Hne. reflexivity. }
        rewrite Hk.
        destruct (decide (field ∈ keys)) as [Hin | Hnin].
        -- rewrite !bool_decide_eq_true_2; [reflexivity | right; exact Hin | exact Hin].
        -- rewrite !bool_decide_eq_false_2; [reflexivity | | exact Hnin].
           intros Hin. apply elem_of_cons in Hin as [?|?]; contradiction.
    + destruct (getError k errs) eqn:Hk; [|reflexivity].
      rewrite fieldGet_showFieldError.
      destruct (decide (field = k)) as [-> | Hne]; [congruence|].
      rewrite bool_decide_eq_false_2 by exact Hne. reflexivity.
Qed.

Lemma showErrors_status (errs : list (Field * jsstring)) (keys : list Field)
  (els : Elements) :
  let els' :=
    fold_left
      (fun els field =>
         match getError field errs with
         | Some error => UI.showFieldError field error els
         | None => els
         end) keys els in
  submitDisabled els' = submitDisabled els
  /\ loading els' = loading els
  /\ errorMessage els' = errorMessage els
  /\ successMessage els' = successMessage els.
Proof.
  cbv zeta. revert els. induction keys as [|k keys IH]; intros els; simpl; [auto|].
  destruct (IH (match getError k errs with
                | Some error => UI.showFieldError k error els
                | None => els
                end)) as (H1 & H2 & H3 & H4).
  rewrite H1, H2, H3, H4.
  destruct (getError k errs); [apply showFieldError_status | auto].
Qed.

(** The entries of the error list. *)
Lemma getError_errorsOf (formData : FormData) (field : Field) :
  getError field (errorsOf formData) = validateField field (formDataGet formData field)
  /\ (is_Some (validateField field (formDataGet formData field)) ->
      field ∈ map fst (errorsOf formData)).
Proof.
  unfold errorsOf, fieldNames. cbn -[validateField formDataGet].
  destruct (validateField Name (formDataGet formData Name)) eqn:H1;
  destruct (validateField Email (formDataGet formData Email)) eqn:H2;
  destruct (validateField Subject (formDataGet formData Subject)) eqn:H3;
  destruct (validateField Message (formDataGet formData Message)) eqn:H4;
  destruct field; rewrite ?H1, ?H2, ?H3, ?H4; simpl;
  (split; [reflexivity | intros [x Hx]; try discriminate; set_solver]).
Qed.

Lemma handleSubmit_fields_eq (EMAIL_CONFIG : EmailConfig)
  (translate : option (jsstring -> JSValue)) (outcome : Settled) (page : Page)
  (field : Field) :
  goesOut EMAIL_CONFIG page = false \/ outcome <> Fulfilled ->
  fieldGet (fields (elements (handleSubmit EMAIL_CONFIG translate outcome page))) field
  = inlineError (validateField field (trimmedValue page field))
      <$> fieldGet (fields (elements page)) field.
Proof.
  unfold goesOut. intros Hcase. unfold handleSubmit.
  cbn [elements fields initialized emailjsCalls].
  rewrite readFormData_clearFieldErrors. fold (submitted page).
  rewrite <- submitted_trimmed.
  destruct (isValid (validateForm (submitted page))) eqn:Hv.
  - rewrite (validateForm_valid _ field Hv). cbn [negb].
    destruct (isConfigured EMAIL_CONFIG) eqn:Hc; cbn [negb];
      [unfold EmailService.send; cbn [initialized withElements];
       destruct (initialized page) eqn:Hi; cbn [negb];
       [destruct outcome;
          [destruct Hcase as [Hcase|Hcase]; [discriminate | congruence] | |] |] |];
      cbn [elements UI.showError UI.showLoading UI.hideAllMessages UI.hideLoading
             setTimeout withElements fields];
      rewrite fieldGet_clearFieldErrors; apply clearFieldError_inlineError.
  - cbn [negb withElements elements].
    destruct (validateForm_errors (submitted page)) as [-> _].
    rewrite fieldGet_showErrors, fieldGet_clearFieldErrors.
    destruct (getError_errorsOf (submitted page) field) as [-> Hin].
    destruct (validateField field (formDataGet (submitted page) field)) as [error|] eqn:Hf.
    + rewrite bool_decide_eq_true_2 by (apply Hin; eexists; reflexivity).
      destruct (fieldGet (fields (elements page)) field) as [[v d i [b|]]|]; reflexivity.
    + apply clearFieldError_inlineError.
Qed.

(** Unless the send succeeded, a submission leaves every field with its
    value and with the inline error of its own validation result, computed
    on the trimmed value: failing fields show their message, the others are
    cleared. *)
Theorem handleSubmit_fields (EMAIL_CONFIG : EmailConfig)
  (translate : option (jsstring -> JSValue)) (outcome : Settled) (page : Page)
  (field : Field) :
  goesOut EMAIL_CONFIG page = false \/ outcome <> Fulfilled ->
  fieldGet (fields (elements (handleSubmit EMAIL_CONFIG translate outcome page))) field
  = inlineError (validateField field (trimmedValue page field))
      <$> fieldGet (fields (elements page)) field.
Proof. apply handleSubmit_fields_eq. Qed.

(** After a send that succeeded every field holds its default value and
    its inline error is cleared. *)
Theorem handleSubmit_resets (EMAIL_CONFIG : EmailConfig)
  (translate : option (jsstring -> JSValue)) (page : Page) (field : Field) :
  goesOut EMAIL_CONFIG page = true ->
  fieldGet (fields (elements (handleSubmit EMAIL_CONFIG translate Fulfilled page))) field
  = (fun el =>
       inlineError None
         {| value := defaultValue el; defaultValue := defaultValue el;
            isInvalid := isInvalid el; validateDiv := validateDiv el |})
      <$> fieldGet (fields (elements page)) field.
Proof.
  unfold goesOut. intros Hgo.
  apply andb_true_iff in Hgo as [Hgo Hi]. apply andb_true_iff in Hgo as [Hv Hc].
  unfold handleSubmit. cbn [elements fields initialized emailjsCalls].
  rewrite readFormData_clearFieldErrors. fold (submitted page).
  rewrite Hv, Hc. cbn [negb]. unfold EmailService.send.
  cbn [initialized withElements]. rewrite Hi. cbn [negb].
  cbn [elements UI.showSuccess UI.showLoading UI.hideAllMessages UI.hideLoading
         setTimeout withElements fields].
  rewrite fieldGet_resetForm. cbn [fields].
  rewrite fieldGet_clearFieldErrors.
  destruct (fieldGet (fields (elements page)) field) as [[v d i [b|]]|]; reflexivity.
Qed.

Lemma handleSubmit_status_cases (EMAIL_CONFIG : EmailConfig)
  (translate : option (jsstring -> JSValue)) (outcome : Settled) (page : Page) :
  defaultPrevented (handleSubmit EMAIL_CONFIG translate outcome page) = true
  /\ (isValid (validateForm (submitted page)) = false ->
      submitDisabled (elements (handleSubmit EMAIL_CONFIG translate outcome page))
      = submitDisabled (elements page)
      /\ loading (elements (handleSubmit EMAIL_CONFIG translate outcome page))
         = loading (elements page)
      /\ errorMessage (elements (handleSubmit EMAIL_CONFIG translate outcome page))
         = errorMessage (elements page)
      /\ successMessage (elements (handleSubmit EMAIL_CONFIG translate outcome page))
         = successMessage (elements page)
      /\ timers (handleSubmit EMAIL_CONFIG translate outcome page) = timers page)
  /\ (goesOut EMAIL_CONFIG page = true -> outcome = Pending ->
      submitDisabled (elements (handleSubmit EMAIL_CONFIG translate outcome page)) = true
      /\ display (loading (elements (handleSubmit EMAIL_CONFIG translate outcome page)))
         = DisplayBlock
      /\ display (errorMessage (elements (handleSubmit EMAIL_CONFIG translate outcome page)))
         = DisplayNone
      /\ display (successMessage (elements (handleSubmit EMAIL_CONFIG translate outcome page)))
         = DisplayNone
      /\ timers (handleSubmit EMAIL_CONFIG translate outcome page) = timers page)
  /\ (isValid (validateForm (submitted page)) = true ->
      isConfigured EMAIL_CONFIG = true ->
      initialized page = false \/ outcome = Rejected ->
      submitDisabled (elements (handleSubmit EMAIL_CONFIG translate outcome page)) = false
      /\ display (loading (elements (handleSubmit EMAIL_CONFIG translate outcome page)))
         = DisplayNone
      /\ errorMessage (elements (handleSubmit EMAIL_CONFIG translate outcome page))
         = failureBanner translate
      /\ display (successMessage (elements (handleSubmit EMAIL_CONFIG translate outcome page)))
         = DisplayNone
      /\ timers (handleSubmit EMAIL_CONFIG translate outcome page)
         = timers page ++ [(5000, HideError)]).
Proof.
  unfold goesOut, handleSubmit. cbn [elements fields initialized emailjsCalls].
  rewrite readFormData_clearFieldErrors. fold (submitted page).
  split; [|split; [|split]].
  - destruct (isValid (validateForm (submitted page))); cbn [negb]; [|reflexivity].
    destruct (isConfigured EMAIL_CONFIG); cbn [negb]; [|reflexivity].
    unfold EmailService.send. cbn [initialized withElements].
    destruct (initialized page), outcome; reflexivity.
  - intros Hv. rewrite Hv. cbn [negb withElements elements timers].
    destruct (showErrors_status (errors (validateForm (submitted page)))
                (map fst (errors (validateForm (submitted page))))
                (UI.clearFieldErrors (elements page))) as (H1 & H2 & H3 & H4).
    cbv zeta in H1, H2, H3, H4. rewrite H1, H2, H3, H4.
    repeat split; reflexivity.
  - intros Hgo ->.
    apply andb_true_iff in Hgo as [Hgo Hi]. apply andb_true_iff in Hgo as [Hv Hc].
    rewrite Hv, Hc. cbn [negb]. unfold EmailService.send.
    cbn [initialized withElements]. rewrite Hi. repeat split; reflexivity.
  - intros Hv Hc Hcase. rewrite Hv, Hc. cbn [negb]. unfold EmailService.send.
    cbn [initialized withElements].
    destruct (initialized page) eqn:Hi; cbn [negb].
    + destruct Hcase as [Hcase | ->]; [discriminate|]. repeat split; reflexivity.
    + repeat split; reflexivity.
Qed.

(** The status elements after a submission.  The handler always suppresses
    the default submission.  An invalid form leaves the loading indicator,
    the two banners, the submit button and the timers as they were.  While
    the send is pending the indicator is shown, the button disabled and both
    banners hidden.  When the send fails, or the service was never
    initialized, the error banner is shown with one timer to hide it, the
    indicator hidden and the button enabled. *)
Theorem handleSubmit_status (EMAIL_CONFIG : EmailConfig)
  (translate : option (jsstring -> JSValue)) (outcome : Settled) (page : Page) :
  defaultPrevented (handleSubmit EMAIL_CONFIG translate outcome page) = true
  /\ (isValid (validateForm (submitted page)) = false ->
      submitDisabled (elements (handleSubmit EMAIL_CONFIG translate outcome page))
      = submitDisabled (elements page)
      /\ loading (elements (handleSubmit EMAIL_CONFIG translate outcome page))
         = loading (elements page)
      /\ errorMessage (elements (handleSubmit EMAIL_CONFIG translate outcome page))
         = errorMessage (elements page)
      /\ successMessage (elements (handleSubmit EMAIL_CONFIG translate outcome page))
         = successMessage (elements page)
      /\ timers (handleSubmit EMAIL_CONFIG translate outcome page) = timers page)
  /\ (goesOut EMAIL_CONFIG page = true -> outcome = Pending ->
      submitDisabled (elements (handleSubmit EMAIL_CONFIG translate outcome page)) = true
      /\ display (loading (elements (handleSubmit EMAIL_CONFIG translate outcome page)))
         = DisplayBlock
      /\ display (errorMessage (elements (handleSubmit EMAIL_CONFIG translate outcome page)))
         = DisplayNone
      /\ display (successMessage (elements (handleSubmit EMAIL_CONFIG translate outcome page)))
         = DisplayNone
      /\ timers (handleSubmit EMAIL_CONFIG translate outcome page) = timers page)
  /\ (isValid (validateForm (submitted page)) = true ->
      isConfigured EMAIL_CONFIG = true ->
      initialized page = false \/ outcome = Rejected ->
      submitDisabled (elements (handleSubmit EMAIL_CONFIG translate outcome page)) = false
      /\ display (loading (elements (handleSubmit EMAIL_CONFIG translate outcome page)))
         = DisplayNone
      /\ errorMessage (elements (handleSubmit EMAIL_CONFIG translate outcome page))
         = failureBanner translate
      /\ display (successMessage (elements (handleSubmit EMAIL_CONFIG translate outcome page)))
         = DisplayNone
      /\ timers (handleSubmit EMAIL_CONFIG translate outcome page)
         = timers page ++ [(5000, HideError)]).
Proof. apply handleSubmit_status_cases. Qed.

(** From a page on which nothing ran yet, [setup] followed by one
    submission calls [emailjs.init] with the public key exactly when the
    library is loaded and the configuration complete, and then
    [emailjs.send] exactly when, besides, [init] did not throw and the form
    is valid. *)
Theorem setup_then_submit (EMAIL_CONFIG : EmailConfig) (lib : EmailjsLibrary)
  (translate : option (jsstring -> JSValue)) (outcome : Settled) (page : Page) :
  freshPage page ->
  emailjsCalls (handleSubmit EMAIL_CONFIG translate outcome (setup EMAIL_CONFIG lib page))
  = if emailjsDefined lib && isConfigured EMAIL_CONFIG
    then EmailjsInit (publicKey EMAIL_CONFIG)
         :: (if negb (initThrows lib) && isValid (validateForm (submitted page))
             then [expectedSend EMAIL_CONFIG page] else [])
    else [].
Proof.
  intros [Hfresh Hcalls].
  destruct (handleSubmit_cases EMAIL_CONFIG translate outcome
              (setup EMAIL_CONFIG lib page)) as (Hinvalid & Hplaceholder & Huninit & Hsend).
  cbv zeta in *.
  assert (Hsub : submitted (setup EMAIL_CONFIG lib page) = submitted page).
  { unfold setup, EmailService.init, submitted.
    destruct (emailjsDefined lib), (isConfigured EMAIL_CONFIG), (initThrows lib);
      reflexivity. }
  assert (Hexp : expectedSend EMAIL_CONFIG (setup EMAIL_CONFIG lib page)
                 = expectedSend EMAIL_CONFIG page).
  { unfold setup, EmailService.init, expectedSend, trimmedValue.
    destruct (emailjsDefined lib), (isConfigured EMAIL_CONFIG), (initThrows lib);
      reflexivity. }
  rewrite Hsub, Hexp in *.
  assert (Hinit : initialized (setup EMAIL_CONFIG lib page)
                  = emailjsDefined lib && isConfigured EMAIL_CONFIG && negb (initThrows lib)).
  { unfold setup, EmailService.init.
    destruct (emailjsDefined lib), (isConfigured EMAIL_CONFIG), (initThrows lib);
      simpl; auto. }
  assert (Hset : emailjsCalls (setup EMAIL_CONFIG lib page)
                 = if emailjsDefined lib && isConfigured EMAIL_CONFIG
                   then [EmailjsInit (publicKey EMAIL_CONFIG)] else []).
  { unfold setup, EmailService.init.
    destruct (emailjsDefined lib), (isConfigured EMAIL_CONFIG), (initThrows lib);
      simpl; rewrite ?Hcalls; auto. }
  rewrite Hinit, Hset in *.
  destruct (isValid (validateForm (submitted page))) eqn:Hv.
  - destruct (isConfigured EMAIL_CONFIG) eqn:Hc.
    + destruct (emailjsDefined lib), (initThrows lib); simpl in *; auto.
    + rewrite (proj1 (Hplaceholder eq_refl eq_refl)).
      rewrite andb_false_r. reflexivity.
  - rewrite (Hinvalid eq_refl), andb_false_r. reflexivity.
Qed.

Lemma handleSubmit_initialized (EMAIL_CONFIG : EmailConfig)
  (translate : option (jsstring -> JSValue)) (outcome : Settled) (page : Page) :
  initialized (handleSubmit EMAIL_CONFIG translate outcome page) = initialized page.
Proof.
  unfold handleSubmit. cbn [elements fields initialized emailjsCalls].
  destruct (isValid (validateForm _)); cbn [negb]; [|reflexivity].
  destruct (isConfigured EMAIL_CONFIG); cbn [negb]; [|reflexivity].
  unfold EmailService.send. cbn [initialized withElements].
  destruct (initialized page) eqn:Hi, outcome; cbn; rewrite ?Hi; reflexivity.
Qed.

(** Unless the send succeeded, the trimmed values are those of before. *)
Lemma handleSubmit_trimmedValue (EMAIL_CONFIG : EmailConfig)
  (translate : option (jsstring -> JSValue)) (outcome : Settled) (page : Page)
  (field : Field) :
  goesOut EMAIL_CONFIG page = false \/ outcome <> Fulfilled ->
  trimmedValue (handleSubmit EMAIL_CONFIG translate outcome page) field
  = trimmedValue page field.
Proof.
  intros Hcase. unfold trimmedValue at 1.
  rewrite (handleSubmit_fields_eq _ _ _ _ _ Hcase). unfold trimmedValue.
  destruct (fieldGet (fields (elements page)) field) as [[v d i [b|]]|]; reflexivity.
Qed.

Lemma submitted_ext (page page' : Page) :
  (forall field, trimmedValue page' field = trimmedValue page field) ->
  submitted page' = submitted page.
Proof.
  intros H. unfold submitted, readFormData.
  pose proof (H Name) as Hn. pose proof (H Email) as He.
  pose proof (H Subject) as Hs. pose proof (H Message) as Hm.
  unfold trimmedValue in Hn, He, Hs, Hm.
  rewrite !fieldValue_trim, Hn, He, Hs, Hm. reflexivity.
Qed.

(** The handler has no guard of its own against a second submission: run
    again while the first send is pending, it sends the same message a
    second time.  Only the disabled submit button stands in the way. *)
Theorem handleSubmit_twice (EMAIL_CONFIG : EmailConfig)
  (translate : option (jsstring -> JSValue)) (page : Page) :
  goesOut EMAIL_CONFIG page = true ->
  submitDisabled (elements (handleSubmit EMAIL_CONFIG translate Pending page)) = true
  /\ emailjsCalls
       (handleSubmit EMAIL_CONFIG translate Pending
          (handleSubmit EMAIL_CONFIG translate Pending page))
     = emailjsCalls page
       ++ [expectedSend EMAIL_CONFIG page; expectedSend EMAIL_CONFIG page].
Proof.
  intros Hgo. pose proof Hgo as Hgo'. unfold goesOut in Hgo'.
  apply andb_true_iff in Hgo' as [Hgo' Hi]. apply andb_true_iff in Hgo' as [Hv Hc].
  assert (Hpending : goesOut EMAIL_CONFIG page = false \/ Pending <> Fulfilled)
    by (right; discriminate).
  set (page' := handleSubmit EMAIL_CONFIG translate Pending page).
  assert (Htrim : forall field, trimmedValue page' field = trimmedValue page field).
  { intros field. apply handleSubmit_trimmedValue, Hpending. }
  assert (Hsub : submitted page' = submitted page) by (apply submitted_ext, Htrim).
  assert (Hexp : expectedSend EMAIL_CONFIG page' = expectedSend EMAIL_CONFIG page).
  { unfold expectedSend. rewrite !Htrim. reflexivity. }
  destruct (handleSubmit_status_cases EMAIL_CONFIG translate Pending page)
    as (_ & _ & Hflight & _).
  destruct (Hflight Hgo eq_refl) as [Hdisabled _].
  split; [exact Hdisabled|].
  destruct (handleSubmit_cases EMAIL_CONFIG translate Pending page)
    as (_ & _ & _ & Hfirst).
  destruct (handleSubmit_cases EMAIL_CONFIG translate Pending page')
    as (_ & _ & _ & Hsecond).
  cbv zeta in Hfirst, Hsecond.
  rewrite Hsecond.
  - rewrite Hexp. unfold page'. rewrite (Hfirst Hv Hc Hi), <- app_assoc. reflexivity.
  - rewrite Hsub. exact Hv.
  - exact Hc.
  - unfold page'. rewrite handleSubmit_initialized. exact Hi.
Qed.

End SubmissionEffects.

Lemma handleSubmit_fields_witness :
  ContactForm.fieldGet
    (ContactForm.fields (ContactForm.elements
       (ContactForm.handleSubmit ContactForm.shippedConfig None ContactForm.Pending
          (samplePage "Al" "ada@example.org" "Hello" "A message of some length."))))
    ContactForm.Name
  = Some {| ContactForm.value := lit "Al"; ContactForm.defaultValue := [];
            ContactForm.isInvalid := true;
            ContactForm.validateDiv :=
              Some {| ContactForm.textContent :=
                        VString (lit "Please enter at least 4 characters");
                      ContactForm.display := ContactForm.DisplayBlock |} |}.
Proof.
  refine (eq_trans
    (handleSubmit_fields ContactForm.shippedConfig None ContactForm.Pending
       (samplePage "Al" "ada@example.org" "Hello" "A message of some length.")
       ContactForm.Name _) _).
  - left. vm_compute. reflexivity.
  - vm_compute. reflexivity.
Defined.

Lemma handleSubmit_resets_witness :
  ContactForm.value <$>
    ContactForm.fieldGet
      (ContactForm.fields (ContactForm.elements
         (ContactForm.handleSubmit ContactForm.shippedConfig None ContactForm.Fulfilled
            (ContactForm.setup ContactForm.shippedConfig libraryLoaded filledPage))))
      ContactForm.Message
  = Some [].
Proof.
  refine (eq_trans (f_equal (fmap ContactForm.value)
    (handleSubmit_resets ContactForm.shippedConfig None
       (ContactForm.setup ContactForm.shippedConfig libraryLoaded filledPage)
       ContactForm.Message _)) _).
  - vm_compute. reflexivity.
  - vm_compute. reflexivity.
Defined.

Lemma setup_then_submit_witness :
  length (ContactForm.emailjsCalls
    (ContactForm.handleSubmit ContactForm.shippedConfig None ContactForm.Pending
       (ContactForm.setup ContactForm.shippedConfig libraryLoaded filledPage))) = 2%nat.
Proof.
  refine (eq_trans (f_equal length
    (setup_then_submit ContactForm.shippedConfig libraryLoaded None ContactForm.Pending
       filledPage _)) _).
  - split; reflexivity.
  - vm_compute. reflexivity.
Defined.

Lemma handleSubmit_twice_witness :
  length (ContactForm.emailjsCalls
    (ContactForm.handleSubmit ContactForm.shippedConfig None ContactForm.Pending
       (ContactForm.handleSubmit ContactForm.shippedConfig None ContactForm.Pending
          (ContactForm.setup ContactForm.shippedConfig libraryLoaded filledPage))))
  = 3%nat.
Proof.
  refine (eq_trans (f_equal length (proj2
    (handleSubmit_twice ContactForm.shippedConfig None
       (ContactForm.setup ContactForm.shippedConfig libraryLoaded filledPage) _))) _).
  - vm_compute. reflexivity.
  - vm_compute. reflexivity.
Defined.

(* ===================================================================== *)
(** * Live validation *)
(* ===================================================================== *)

Section LiveValidation.

Import ContactForm.

Lemma fieldGet_fieldSet (fs : Fields) (fieldName field : Field)
  (el : option FieldElement) :
  fieldGet (fieldSet fs fieldName el) field
  = if bool_decide (field = fieldName) then el else fieldGet fs field.
Proof. destruct fs, fieldName, field; reflexivity. Qed.

(** The [blur] listener of a field shows the verdict of the validator of
    that field on the value as typed, in that field only: the other fields,
    the loading indicator, the banners, the submit button, the timers and the
    calls to EmailJS are as they were. *)
Theorem handleBlur_effect (fieldName : Field) (page : Page) :
  (forall field,
     fieldGet (fields (elements (handleBlur fieldName page))) field
     = if bool_decide (field = fieldName)
       then (fun el => blurError (validateField fieldName (value el)) el)
              <$> fieldGet (fields (elements page)) field
       else fieldGet (fields (elements page)) field)
  /\ submitDisabled (elements (handleBlur fieldName page)) = submitDisabled (elements page)
  /\ loading (elements (handleBlur fieldName page)) = loading (elements page)
  /\ errorMessage (elements (handleBlur fieldName page)) = errorMessage (elements page)
  /\ successMessage (elements (handleBlur fieldName page)) = successMessage (elements page)
  /\ emailjsCalls (handleBlur fieldName page) = emailjsCalls page
  /\ timers (handleBlur fieldName page) = timers page
  /\ initialized (handleBlur fieldName page) = initialized page
  /\ defaultPrevented (handleBlur fieldName page) = defaultPrevented page.
Proof.
  split.
  - intros field. unfold handleBlur.
    destruct (decide (field = fieldName)) as [-> | Hne].
    + rewrite bool_decide_eq_true_2 by reflexivity.
      destruct (fieldGet (fields (elements page)) fieldName) as [el|] eqn:Hel;
        [|rewrite Hel; reflexivity].
      destruct (validateField fieldName (value el)) as [error|] eqn:Hv.
      * rewrite (validateField_truthy _ _ _ Hv). cbn [withElements elements].
        rewrite fieldGet_showFieldError, Hel.
        rewrite bool_decide_eq_true_2 by reflexivity.
        unfold blurError, inlineError. cbn [fmap option_fmap option_map].
        rewrite Hv. destruct (validateDiv el); reflexivity.
      * unfold blurError. cbn [fmap option_fmap option_map]. rewrite Hv.
        destruct (validateDiv el) as [div|] eqn:Hdiv; [|exact Hel].
        cbn [withElements elements withFields fields].
        rewrite fieldGet_fieldSet. rewrite bool_decide_eq_true_2 by reflexivity.
        reflexivity.
    + rewrite bool_decide_eq_false_2 by exact Hne.
      destruct (fieldGet (fields (elements page)) fieldName) as [el|] eqn:Hel;
        [|reflexivity].
      destruct (validateField fieldName (value el)) as [error|] eqn:Hv.
      * rewrite (validateField_truthy _ _ _ Hv). cbn [withElements elements].
        rewrite fieldGet_showFieldError.
        rewrite bool_decide_eq_false_2 by exact Hne. reflexivity.
      * destruct (validateDiv el) as [div|]; [|reflexivity].
        cbn [withElements elements withFields fields].
        rewrite fieldGet_fieldSet. rewrite bool_decide_eq_false_2 by exact Hne.
        reflexivity.
  - unfold handleBlur.
    destruct (fieldGet (fields (elements page)) fieldName) as [el|];
      [|repeat split; reflexivity].
    destruct (validateField fieldName (value el)) as [error|] eqn:Hv.
    + rewrite (validateField_truthy _ _ _ Hv). cbn [withElements elements].
      destruct (showFieldError_status fieldName error (elements page))
        as (H1 & H2 & H3 & H4).
      rewrite H1, H2, H3, H4. repeat split; reflexivity.
    + destruct (validateDiv el); repeat split; reflexivity.
Qed.

End LiveValidation.

(* ===================================================================== *)
(** * Lookups that resolve *)
(* ===================================================================== *)

Section Resolved.

Import i18n.
Local Open Scope js_scope.

Variable h : Host.

(** A node that has an entry is an object, hence truthy. *)
Lemma entry_truthy (v x : JSValue) (k : jsstring) :
  entry v k = Some x -> truthy v = true.
Proof. destruct v; simpl; try discriminate. reflexivity. Qed.

Lemma lookupPath_truthy (keys : list jsstring) (v leaf : JSValue) :
  lookupPath v keys = Some leaf -> truthy leaf = true -> truthy v = true.
Proof.
  destruct keys as [|k rest]; simpl.
  - intros [= ->] Hleaf. exact Hleaf.
  - destruct (entry v k) eqn:Hentry; [|discriminate].
    intros _ _. eapply entry_truthy, Hentry.
Qed.

Lemma translateLoop_resolved (key : jsstring) (keys : list jsstring)
  (value leaf : JSValue) (w : World) :
  lookupPath value keys = Some leaf ->
  truthy leaf = true ->
  translateLoop h key keys value w = (leaf, w).
Proof.
  revert value. induction keys as [|k rest IH]; intros value Hpath Hleaf; simpl.
  - simpl in Hpath. injection Hpath as ->. reflexivity.
  - simpl in Hpath. destruct (entry value k) as [v'|] eqn:Hentry; [|discriminate].
    rewrite (getProp_entry h _ _ _ Hentry), (entry_truthy _ _ _ Hentry).
    rewrite (lookupPath_truthy _ _ _ Hpath Hleaf). cbn [andb].
    apply IH; assumption.
Qed.

(** The lookup of a key whose segments all exist in the current dictionary
    and lead to a truthy value returns that value and logs nothing. *)
Theorem translate_resolved (key : jsstring) (leaf : JSValue) (w : World) :
  lookupPath (dictionary h w) (split 0x2E key) = Some leaf ->
  truthy leaf = true ->
  translate h key w = (leaf, w).
Proof.
  intros Hpath Hleaf. unfold translate, bind, get. cbn [fst snd].
  apply translateLoop_resolved; assumption.
Qed.

Lemma translateLoop_outcomes (key : jsstring) (keys : list jsstring)
  (value : JSValue) (w : World) :
  (snd (translateLoop h key keys value w) = w
   /\ (keys <> [] -> truthy (fst (translateLoop h key keys value w)) = true))
  \/ translateLoop h key keys value w = (VString key, warned key w).
Proof.
  revert value. induction keys as [|k rest IH]; intros value; simpl.
  - left. split; [reflexivity | congruence].
  - destruct (truthy value && truthy (getProp h value k)) eqn:Htest; [|right; reflexivity].
    destruct (IH (getProp h value k)) as [[Hsnd Htruthy] | Hgave]; [|right; exact Hgave].
    left. split; [exact Hsnd|]. intros _.
    destruct rest as [|k' rest']; [|apply Htruthy; discriminate].
    simpl. apply andb_true_iff in Htest. apply Htest.
Qed.

(** A lookup ends in one of two ways: it returns a truthy value it found and
    leaves the world as it is, console included, or it returns the key and
    adds one warning to the console.  It changes nothing else and never
    returns a falsy value it found. *)
Theorem translate_outcomes (key : jsstring) (w : World) :
  (snd (translate h key w) = w /\ truthy (fst (translate h key w)) = true)
  \/ translate h key w = (VString key, warned key w).
Proof.
  unfold translate, bind, get. cbn [fst snd].
  destruct (translateLoop_outcomes key (split 0x2E key)
              (cached h w (currentLanguage w)) w) as [[Hsnd Htruthy] | Hgave].
  - left. split; [exact Hsnd | apply Htruthy, split_nonempty].
  - right. exact Hgave.
Qed.

End Resolved.

Lemma translate_resolved_witness :
  i18n.translate standardHost (lit "nav.home") sampleWorld
  = (i18n.str "Home", sampleWorld).
Proof.
  apply (translate_resolved standardHost (lit "nav.home") (i18n.str "Home") sampleWorld).
  - vm_compute. reflexivity.
  - reflexivity.
Defined.

(* ===================================================================== *)
(** * The dictionary cache *)
(* ===================================================================== *)

Section Cache.

Import i18n.
Local Open Scope js_scope.

Variable h : Host.

Lemma ownProperty_setProperty_eq (k : jsstring) (v : JSValue)
  (props : list (jsstring * JSValue)) :
  ownProperty k (setProperty k v props) = Some v.
Proof.
  induction props as [|[k' v'] props IH]; simpl.
  - rewrite bool_decide_eq_true_2 by reflexivity. reflexivity.
  - destruct (decide (k' = k)) as [-> | Hne].
    + rewrite bool_decide_eq_true_2 by reflexivity. simpl.
      rewrite bool_decide_eq_true_2 by reflexivity. reflexivity.
    + rewrite bool_decide_eq_false_2 by exact Hne. simpl.
      rewrite bool_decide_eq_false_2 by exact Hne. exact IH.
Qed.

Lemma ownProperty_setProperty_ne (k other : jsstring) (v : JSValue)
  (props : list (jsstring * JSValue)) :
  other <> k -> ownProperty other (setProperty k v props) = ownProperty other props.
Proof.
  intros Hne. induction props as [|[k' v'] props IH]; simpl.
  - rewrite bool_decide_eq_false_2 by congruence. reflexivity.
  - destruct (decide (k' = k)) as [-> | Hk].
    + rewrite bool_decide_eq_true_2 by reflexivity. simpl.
      rewrite !bool_decide_eq_false_2 by congruence. reflexivity.
    + rewrite bool_decide_eq_false_2 by exact Hk. simpl.
      destruct (bool_decide (k' = other)); [reflexivity | exact IH].
Qed.

(** What [loadLanguage] returns and what it does to the cache. *)
Lemma loadLanguage_cases (lang : jsstring) (outcome : FetchOutcome) (w : World) :
  (truthy (cached h w lang) = true ->
   fst (loadLanguage h lang outcome w) = Resolved (cached h w lang)
   /\ translations (snd (loadLanguage h lang outcome w)) = translations w)
  /\ (truthy (cached h w lang) = false ->
      fst (loadLanguage h lang outcome w)
      = match outcome with
        | FetchJson data => Resolved data
        | FetchFailed error => RejectedWith error
        | FetchPending => Unsettled
        end
      /\ translations (snd (loadLanguage h lang outcome w))
         = match outcome with
           | FetchJson data => setProperty lang data (translations w)
           | _ => translations w
           end).
Proof.
  unfold loadLanguage, bind, get. cbn [fst snd]. split; intros Hc; rewrite Hc.
  - split; reflexivity.
  - destruct outcome; split; reflexivity.
Qed.

(** The cache of dictionaries.  A language whose dictionary is cached is
    served from the cache, whatever a fetch would give, and the cache stays
    as it is.  Otherwise a fetched dictionary is stored under the language
    and returned, the dictionaries of the other languages are untouched,
    and, when the dictionary is truthy, every later load returns it without
    a fetch; a failed or pending fetch leaves the cache as it is.  The
    language is not [__proto__], the one name whose assignment JavaScript
    does not store as a property. *)
Theorem loadLanguage_cache (lang : jsstring) (w : World) :
  lang <> lit "__proto__" ->
  (truthy (cached h w lang) = true ->
   forall outcome,
     fst (loadLanguage h lang outcome w) = Resolved (cached h w lang)
     /\ translations (snd (loadLanguage h lang outcome w)) = translations w)
  /\ (truthy (cached h w lang) = false ->
      forall data,
        fst (loadLanguage h lang (FetchJson data) w) = Resolved data
        /\ cached h (snd (loadLanguage h lang (FetchJson data) w)) lang = data
        /\ (forall other,
              other <> lang ->
              ownProperty other (translations (snd (loadLanguage h lang (FetchJson data) w)))
              = ownProperty other (translations w))
        /\ (truthy data = true ->
            forall outcome,
              fst (loadLanguage h lang outcome
                     (snd (loadLanguage h lang (FetchJson data) w)))
              = Resolved data
              /\ translations (snd (loadLanguage h lang outcome
                                      (snd (loadLanguage h lang (FetchJson data) w))))
                 = translations (snd (loadLanguage h lang (FetchJson data) w))))
  /\ (truthy (cached h w lang) = false ->
      forall error,
        fst (loadLanguage h lang (FetchFailed error) w) = RejectedWith error
        /\ translations (snd (loadLanguage h lang (FetchFailed error) w)) = translations w)
  /\ (truthy (cached h w lang) = false ->
      fst (loadLanguage h lang FetchPending w) = Unsettled
      /\ translations (snd (loadLanguage h lang FetchPending w)) = translations w).
Proof.
  intros _. split; [|split; [|split]].
  - intros Hc outcome. apply (proj1 (loadLanguage_cases lang outcome w) Hc).
  - intros Hc data.
    destruct (proj2 (loadLanguage_cases lang (FetchJson data) w) Hc) as [Hfst Ht].
    assert (Hcached : cached h (snd (loadLanguage h lang (FetchJson data) w)) lang = data).
    { unfold cached. rewrite Ht. simpl. rewrite ownProperty_setProperty_eq. reflexivity. }
    split; [exact Hfst|]. split; [exact Hcached|]. split.
    + intros other Hne. rewrite Ht. apply ownProperty_setProperty_ne, Hne.
    + intros Hdata outcome.
      destruct (loadLanguage_cases lang outcome
                  (snd (loadLanguage h lang (FetchJson data) w))) as [Hhit _].
      rewrite Hcached in Hhit. apply Hhit, Hdata.
  - intros Hc error. apply (proj2 (loadLanguage_cases lang (FetchFailed error) w) Hc).
  - intros Hc. apply (proj2 (loadLanguage_cases lang FetchPending w) Hc).
Qed.

End Cache.

Lemma loadLanguage_cache_witness :
  i18n.cached standardHost
    (snd (i18n.loadLanguage standardHost (lit "fr") (i18n.FetchJson sampleDictionary)
            sampleWorld)) (lit "fr")
  = sampleDictionary.
Proof.
  refine (proj1 (proj2 (proj1 (proj2
    (loadLanguage_cache standardHost (lit "fr") sampleWorld _)) _ sampleDictionary))).
  - discriminate.
  - vm_compute. reflexivity.
Defined.

(* ===================================================================== *)
(** * Switching and applying *)
(* ===================================================================== *)

Section Switching.

Import i18n.
Local Open Scope js_scope.

Variable h : Host.

(** Splits a computation along its binds and its tests, for any component
    of the world. *)
Ltac frame :=
  repeat first
    [ apply logs_detectLanguage
    | apply logs_translate
    | apply logs_applyElements
    | apply keeps_ret
    | apply keeps_get
    | solve [unfold keeps; intros; reflexivity]
    | apply keeps_bind; [|intros ?]
    | match goal with
      | |- keeps _ (if ?c then _ else _) => destruct c
      | |- keeps _ (match ?x with _ => _ end) => destruct x
      end ].

(** ** What each method leaves alone *)

Lemma detectLanguage_frame (w : World) :
  snd (detectLanguage h w) =
  {| currentLanguage := currentLanguage w; translations := translations w;
     localStorage := localStorage w; navigator := navigator w;
     document := document w; console := console (snd (detectLanguage h w));
     changeListeners := changeListeners w |}.
Proof.
  assert (H1 : keeps currentLanguage (detectLanguage h)) by frame.
  assert (H2 : keeps translations (detectLanguage h)) by frame.
  assert (H3 : keeps localStorage (detectLanguage h)) by frame.
  assert (H4 : keeps navigator (detectLanguage h)) by frame.
  assert (H5 : keeps document (detectLanguage h)) by frame.
  assert (H6 : keeps changeListeners (detectLanguage h)) by frame.
  rewrite <- (H1 w), <- (H2 w), <- (H3 w), <- (H4 w), <- (H5 w), <- (H6 w).
  destruct (snd (detectLanguage h w)); reflexivity.
Qed.

Lemma loadLanguage_keeps_storage (lang : jsstring) (outcome : FetchOutcome) :
  keeps localStorage (loadLanguage h lang outcome).
Proof. unfold loadLanguage, loadLanguageSettle. frame. Qed.

Lemma loadLanguage_keeps_document (lang : jsstring) (outcome : FetchOutcome) :
  keeps document (loadLanguage h lang outcome).
Proof. unfold loadLanguage, loadLanguageSettle. frame. Qed.

Lemma loadLanguage_keeps_listeners (lang : jsstring) (outcome : FetchOutcome) :
  keeps changeListeners (loadLanguage h lang outcome).
Proof. unfold loadLanguage, loadLanguageSettle. frame. Qed.

Lemma applyTranslations_keeps_storage : keeps localStorage (applyTranslations h).
Proof. unfold applyTranslations. frame. Qed.

Lemma applyTranslations_keeps_translations : keeps translations (applyTranslations h).
Proof. unfold applyTranslations. frame. Qed.

Lemma applyTranslations_keeps_listeners : keeps changeListeners (applyTranslations h).
Proof. unfold applyTranslations. frame. Qed.

Lemma updateLanguageSelector_keeps_storage : keeps localStorage updateLanguageSelector.
Proof. unfold updateLanguageSelector. frame. Qed.

(** ** The detection reads, and reads two things *)

(** The detection changes nothing but the console, and its result depends
    only on the saved code and on the locale of the browser. *)
Theorem detectLanguage_reads (w : World) :
  currentLanguage (snd (detectLanguage h w)) = currentLanguage w
  /\ translations (snd (detectLanguage h w)) = translations w
  /\ localStorage (snd (detectLanguage h w)) = localStorage w
  /\ navigator (snd (detectLanguage h w)) = navigator w
  /\ document (snd (detectLanguage h w)) = document w
  /\ changeListeners (snd (detectLanguage h w)) = changeListeners w
  /\ (forall w',
        savedLanguage w' = savedLanguage w ->
        browserLocale w' = browserLocale w ->
        detected h w' = detected h w).
Proof.
  rewrite detectLanguage_frame.
  cbn [currentLanguage translations localStorage navigator document changeListeners].
  repeat split. intros w' Hs Hb. rewrite !detected_value, Hs, Hb. reflexivity.
Qed.

(** ** Switching the language *)

Lemma setLanguage_switched (lang : jsstring) (outcome : FetchOutcome) (w : World) :
  supported lang -> switched lang w (snd (setLanguage h lang outcome w)).
Proof.
  intros Hs. split; [apply setLanguage_accepts, Hs|].
  unfold setLanguage.
  pose proof (indexOf_supported lang) as Hi.
  rewrite bool_decide_eq_true_2 in Hi by exact Hs.
  apply negb_true_iff in Hi. rewrite Hi.
  unfold bind at 1 2 3. cbn [fst snd].
  match goal with
  | |- localStorage (snd (?m ?w')) = _ =>
      assert (Hk : keeps localStorage m);
        [ apply keeps_bind;
            [ apply loadLanguage_keeps_storage
            | intros []; [ apply keeps_bind;
                             [ apply applyTranslations_keeps_storage
                             | intros ?; apply updateLanguageSelector_keeps_storage ]
                         | apply keeps_ret | apply keeps_ret ] ]
        | rewrite (Hk w') ]
  end.
  reflexivity.
Qed.

(** A supported language, once chosen, is what the detection returns from
    then on, whatever the browser reports and however the load of its
    dictionary ends: the choice is saved before the load starts. *)
Theorem setLanguage_persists (lang : jsstring) (outcome : FetchOutcome) (w : World) :
  supported lang ->
  savedLanguage (snd (setLanguage h lang outcome w)) = Some lang
  /\ detected h (snd (setLanguage h lang outcome w)) = lang
  /\ (forall outcome' fallback,
        currentLanguage
          (snd (init h outcome' fallback (snd (setLanguage h lang outcome w)))) = lang).
Proof.
  intros Hs. destruct (setLanguage_switched lang outcome w Hs) as [_ Hst].
  assert (Hsaved : savedLanguage (snd (setLanguage h lang outcome w)) = Some lang).
  { unfold savedLanguage. rewrite Hst. apply lookup_insert_eq. }
  assert (Hdet : detected h (snd (setLanguage h lang outcome w)) = lang).
  { apply detected_saved; assumption. }
  split; [exact Hsaved|]. split; [exact Hdet|].
  intros outcome' fallback. rewrite init_currentLanguage. exact Hdet.
Qed.

End Switching.

Lemma setLanguage_persists_witness :
  detected standardHost
    (snd (i18n.setLanguage standardHost (lit "pt") i18n.FetchPending sampleWorld))
  = lit "pt".
Proof.
  refine (proj1 (proj2 (setLanguage_persists standardHost (lit "pt") i18n.FetchPending
                          sampleWorld _))).
  unfold supported. vm_compute. set_solver.
Defined.

(* ===================================================================== *)
(** * Applying the translations *)
(* ===================================================================== *)

Section Applying.
Import i18n.
Local Open Scope js_scope.
Variable h : Host.

Lemma translate_stable (key : jsstring) (w w' : World) :
  currentLanguage w' = currentLanguage w ->
  translations w' = translations w ->
  translated h w' key = translated h w key.
Proof.
  intros Hc Ht. unfold translated, translate, bind, get, cached. cbn [fst snd].
  rewrite Hc, Ht. apply translateLoop_value.
Qed.

Lemma translatedElement_value (el : Element) (w : World) :
  translatedElement h w el =
  if bool_decide (tagName el = lit "INPUT") || bool_decide (tagName el = lit "TEXTAREA")
  then match placeholder el with
       | Some _ =>
           {| tagName := tagName el; dataI18n := dataI18n el;
              placeholder := Some (translated h w (dataI18n el));
              textContent := textContent el |}
       | None => el
       end
  else {| tagName := tagName el; dataI18n := dataI18n el;
          placeholder := placeholder el;
          textContent := translated h w (dataI18n el) |}.
Proof.
  unfold translatedElement, translated, applyElement, bind. cbn [fst snd].
  destruct (bool_decide (tagName el = lit "INPUT") || bool_decide (tagName el = lit "TEXTAREA"));
    [destruct (placeholder el)|]; reflexivity.
Qed.

Lemma translatedElement_stable (el : Element) (w w' : World) :
  currentLanguage w' = currentLanguage w ->
  translations w' = translations w ->
  translatedElement h w' el = translatedElement h w el.
Proof.
  intros Hc Ht. rewrite !translatedElement_value.
  rewrite (translate_stable _ w w' Hc Ht). reflexivity.
Qed.

Lemma applyElements_value (els : list Element) (w : World) :
  fst (applyElements h els w) = map (translatedElement h w) els.
Proof.
  revert w. induction els as [|el rest IH]; intros w; [reflexivity|].
  simpl. unfold bind. cbn [fst snd ret]. rewrite IH. f_equal.
  apply map_ext. intros el'. apply translatedElement_stable.
  - apply (logs_applyElement h currentLanguage). intros level args w0. reflexivity.
  - apply (logs_applyElement h translations). intros level args w0. reflexivity.
Qed.

Lemma applyTranslations_document_eq (w : World) :
  document (snd (applyTranslations h w))
  = {| title := translated h w (lit "meta.title");
       htmlLang := VString (currentLanguage w);
       tagged := map (translatedElement h w) (tagged (document w));
       selectValue := selectValue (document w) |}.
Proof.
  unfold applyTranslations.
  unfold bind at 1. cbn [fst snd].
  unfold bind at 1.
  rewrite (translate_truthy h) by discriminate.
  rewrite (translate_value h).
  fold (translated h w (lit "meta.title")).
  set (w2 := snd (translate h (lit "meta.title") _)).
  assert (Hc : currentLanguage w2 = currentLanguage w).
  { unfold w2. rewrite (logs_translate h currentLanguage); [reflexivity|].
    intros level args w0. reflexivity. }
  assert (Ht : translations w2 = translations w).
  { unfold w2. rewrite (logs_translate h translations); [reflexivity|].
    intros level args w0. reflexivity. }
  assert (Hd : document w2 = document w).
  { unfold w2. rewrite (logs_translate h document); [reflexivity|].
    intros level args w0. reflexivity. }
  unfold bind, get. cbn [fst snd setDocument document title console_ htmlLang tagged
                           selectValue currentLanguage].
  rewrite !(logs_applyElements h document (fun _ _ _ => eq_refl)).
  cbn [document title htmlLang tagged selectValue currentLanguage translations].
  rewrite applyElements_value, Hc, Hd.
  f_equal. apply map_ext. intros el. apply translatedElement_stable.
  - reflexivity.
  - exact Ht.
Qed.
End Applying.

(* ===================================================================== *)
(** * How a switch ends *)
(* ===================================================================== *)

Section SwitchOutcomes.
Import i18n.
Local Open Scope js_scope.
Variable h : Host.

Lemma translatedElement_idempotent (w : World) (el : Element) :
  translatedElement h w (translatedElement h w el) = translatedElement h w el.
Proof.
  rewrite !(translatedElement_value h).
  destruct (bool_decide (tagName el = lit "INPUT") || bool_decide (tagName el = lit "TEXTAREA"))
    eqn:Htag.
  - destruct (placeholder el) eqn:Hp.
    + cbn [tagName placeholder dataI18n textContent]. rewrite Htag. reflexivity.
    + rewrite Htag, Hp. reflexivity.
  - cbn [tagName placeholder dataI18n textContent]. rewrite Htag. reflexivity.
Qed.

(** Applying the translations again changes nothing on the page; one
    application keeps the elements in number and order, with their tag, their
    key and the presence of a placeholder, sets the language attribute to the
    active language and leaves the selector, the cache, the active language
    and the saved preference alone. *)
Theorem applyTranslations_idempotent (w : World) :
  document (snd (applyTranslations h (snd (applyTranslations h w))))
  = document (snd (applyTranslations h w))
  /\ Forall2 (fun el el' =>
                tagName el' = tagName el
                /\ dataI18n el' = dataI18n el
                /\ (is_Some (placeholder el') <-> is_Some (placeholder el)))
       (tagged (document w)) (tagged (document (snd (applyTranslations h w))))
  /\ htmlLang (document (snd (applyTranslations h w))) = VString (currentLanguage w)
  /\ selectValue (document (snd (applyTranslations h w))) = selectValue (document w)
  /\ translations (snd (applyTranslations h w)) = translations w
  /\ currentLanguage (snd (applyTranslations h w)) = currentLanguage w
  /\ localStorage (snd (applyTranslations h w)) = localStorage w.
Proof.
  pose proof (keeps_applyTranslations h w) as Hc.
  pose proof (applyTranslations_keeps_translations h w) as Ht.
  pose proof (applyTranslations_keeps_storage h w) as Hs.
  split; [|split; [|split; [|split; [|split; [|split]]]]]; try assumption.
  - rewrite (applyTranslations_document_eq h (snd (applyTranslations h w))).
    rewrite !(applyTranslations_document_eq h w).
    cbn [tagged selectValue]. rewrite Hc.
    rewrite (translate_stable h _ w _ Hc Ht).
    f_equal. rewrite map_map. apply map_ext. intros el.
    rewrite (translatedElement_stable h _ w _ Hc Ht).
    apply translatedElement_idempotent.
  - rewrite (applyTranslations_document_eq h w). cbn [tagged].
    induction (tagged (document w)) as [|el els IH]; simpl; constructor; [|exact IH].
    rewrite (translatedElement_value h).
    destruct (bool_decide (tagName el = lit "INPUT") || bool_decide (tagName el = lit "TEXTAREA"));
      [destruct (placeholder el) eqn:Hp|]; cbn [tagName dataI18n placeholder];
      rewrite ?Hp; repeat split; auto; intros [x Hx]; eauto; discriminate.
  - rewrite (applyTranslations_document_eq h w). reflexivity.
  - rewrite (applyTranslations_document_eq h w). reflexivity.
Qed.

(** What the callback of a load that resolved leaves on the page. *)
Lemma applied_document (w : World) :
  document (snd ((applyTranslations h ;; updateLanguageSelector) w))
  = {| title := translated h w (lit "meta.title");
       htmlLang := VString (currentLanguage w);
       tagged := map (translatedElement h w) (tagged (document w));
       selectValue := (fun _ => VString (currentLanguage w)) <$> selectValue (document w) |}.
Proof.
  unfold bind. cbn [fst snd]. unfold updateLanguageSelector, bind, get. cbn [fst snd].
  rewrite (keeps_applyTranslations h w).
  rewrite !(applyTranslations_document_eq h w). cbn [selectValue title htmlLang tagged].
  destruct (selectValue (document w)) eqn:Hsel; cbn [ret snd setDocument document];
    rewrite ?(applyTranslations_document_eq h w), ?Hsel; reflexivity.
Qed.

(** The world in which [setLanguage] starts to load, and what follows. *)
Lemma setLanguage_loads (lang : jsstring) (outcome : FetchOutcome) (w : World) :
  supported lang ->
  exists w0,
    currentLanguage w0 = lang
    /\ translations w0 = translations w
    /\ document w0 = document w
    /\ changeListeners w0 = changeListeners w
    /\ snd (setLanguage h lang outcome w)
       = match fst (loadLanguage h lang outcome w0) with
         | Resolved _ =>
             snd ((applyTranslations h ;; updateLanguageSelector)
                    (snd (loadLanguage h lang outcome w0)))
         | RejectedWith _ | Unsettled => snd (loadLanguage h lang outcome w0)
         end.
Proof.
  intros Hs. unfold setLanguage.
  pose proof (indexOf_supported lang) as Hi.
  rewrite bool_decide_eq_true_2 in Hi by exact Hs.
  apply negb_true_iff in Hi. rewrite Hi.
  unfold bind at 1 2 3 4. cbn [fst snd].
  exists (snd (setItem (lit "endev_language") lang
                 (snd (setCurrentLanguage lang
                         (snd (console_ Log [str "[i18n] Changing language to:";
                                             VString lang] w)))))).
  refine (conj _ (conj _ (conj _ (conj _ _)))); [reflexivity ..|].
  match goal with
  | |- context [fst (loadLanguage h lang outcome ?w0)] =>
      destruct (fst (loadLanguage h lang outcome w0)); reflexivity
  end.
Qed.

(** A switch to a supported language whose dictionary is at hand, cached or
    fetched, re-translates the page at once: the language attribute and the
    selector, when the page has one, show the new language.  When the fetch
    fails or has not answered, the page and the cache stay as they were,
    but the active language and the saved preference are switched all the
    same: nothing is rolled back. *)
Theorem setLanguage_outcomes (lang : jsstring) (outcome : FetchOutcome) (w : World) :
  supported lang ->
  switched lang w (snd (setLanguage h lang outcome w))
  /\ (truthy (cached h w lang) = true \/ (exists data, outcome = FetchJson data) ->
      htmlLang (document (snd (setLanguage h lang outcome w))) = VString lang
      /\ selectValue (document (snd (setLanguage h lang outcome w)))
         = (fun _ => VString lang) <$> selectValue (document w))
  /\ (truthy (cached h w lang) = false ->
      (forall data, outcome <> FetchJson data) ->
      document (snd (setLanguage h lang outcome w)) = document w
      /\ translations (snd (setLanguage h lang outcome w)) = translations w).
Proof.
  intros Hs. split; [apply setLanguage_switched, Hs|].
  destruct (setLanguage_loads lang outcome w Hs) as (w0 & Hc & Ht & Hd & _ & ->).
  assert (Hcached : cached h w0 lang = cached h w lang).
  { unfold cached. rewrite Ht. reflexivity. }
  destruct (loadLanguage_cases h lang outcome w0) as [Hhit Hmiss].
  rewrite Hcached in Hhit, Hmiss.
  split.
  - intros Hload.
    assert (Hres : exists v, fst (loadLanguage h lang outcome w0) = Resolved v).
    { destruct (truthy (cached h w lang)) eqn:Hcase.
      - eexists. apply (Hhit eq_refl).
      - destruct Hload as [? | [data ->]]; [discriminate|].
        eexists. apply (Hmiss eq_refl). }
    destruct Hres as [v ->].
    rewrite applied_document. cbn [htmlLang selectValue].
    pose proof (keeps_loadLanguage h lang outcome w0) as Hk. rewrite Hc in Hk.
    rewrite (loadLanguage_keeps_document h), Hd.
    split; [rewrite Hk; reflexivity|].
    apply option_fmap_ext. intros _. rewrite Hk. reflexivity.
  - intros Hcase Hout. destruct (Hmiss Hcase) as [Hfst Htr]. rewrite Hfst.
    destruct outcome as [data | error |]; [exfalso; eapply Hout; reflexivity | |];
      rewrite (loadLanguage_keeps_document h), Htr, Hd, Ht;
      split; reflexivity.
Qed.

End SwitchOutcomes.


(* ===================================================================== *)
(** * Initialisation *)
(* ===================================================================== *)

Section Fallback.
Import i18n.
Local Open Scope js_scope.
Variable h : Host.

(** The world in which [init] starts to load, and what follows. *)
Lemma init_loads (outcome fallback : FetchOutcome) (w : World) :
  exists w0,
    currentLanguage w0 = detected h w
    /\ translations w0 = translations w
    /\ document w0 = document w
    /\ changeListeners w0 = changeListeners w
    /\ snd (init h outcome fallback w)
       = match fst (loadLanguage h (detected h w) outcome w0) with
         | Resolved _ =>
             snd ((applyTranslations h ;; updateLanguageSelector ;;
                   setupEventListeners ;;
                   console_ Log [str "[i18n] Initialization complete"])
                    (snd (loadLanguage h (detected h w) outcome w0)))
         | RejectedWith err =>
             snd ((console_ Error [str "[i18n] Failed to initialize:"; err] ;;
                   loaded' <- loadLanguage h defaultLanguage fallback ;;
                   match loaded' with
                   | Resolved _ => applyTranslations h
                   | RejectedWith _ | Unsettled => ret tt
                   end)
                    (snd (loadLanguage h (detected h w) outcome w0)))
         | Unsettled => snd (loadLanguage h (detected h w) outcome w0)
         end.
Proof.
  unfold init. unfold bind at 1 2 3 4 5. cbn [fst snd].
  fold (detected h (snd (console_ Log [str "[i18n] Initializing internationalization..."] w))).
  rewrite (detected_console h).
  exists (snd (console_ Log [str "[i18n] Detected language:"; VString (detected h w)]
            (snd (setCurrentLanguage (detected h w)
               (snd (detectLanguage h
                  (snd (console_ Log [str "[i18n] Initializing internationalization..."] w)))))))).
  refine (conj _ (conj _ (conj _ (conj _ _)))).
  - reflexivity.
  - cbn [console_ setCurrentLanguage snd translations].
    rewrite (logs_detectLanguage h translations (fun _ _ _ => eq_refl)). reflexivity.
  - cbn [console_ setCurrentLanguage snd document].
    rewrite (logs_detectLanguage h document (fun _ _ _ => eq_refl)). reflexivity.
  - cbn [console_ setCurrentLanguage snd changeListeners].
    rewrite (logs_detectLanguage h changeListeners (fun _ _ _ => eq_refl)). reflexivity.
  - match goal with
    | |- context [fst (loadLanguage h (detected h w) outcome ?w0)] =>
        destruct (fst (loadLanguage h (detected h w) outcome w0)); reflexivity
    end.
Qed.

(** When the dictionary of the detected language cannot be fetched and the
    one of the default language can, [init] leaves the detected language
    active: the page is translated with the dictionary of the detected
    language, of which the cache has none, the selector is not updated and
    no [change] listener is added.  With a detected language other than the
    default, the cache gets the default dictionary under the default
    language only, and every lookup returns its key when the engine supplies
    no member named like the detected language. *)
Theorem init_fallback (error data : JSValue) (w : World) :
  truthy (cached h w (detected h w)) = false ->
  currentLanguage (snd (init h (FetchFailed error) (FetchJson data) w)) = detected h w
  /\ changeListeners (snd (init h (FetchFailed error) (FetchJson data) w))
     = changeListeners w
  /\ selectValue (document (snd (init h (FetchFailed error) (FetchJson data) w)))
     = selectValue (document w)
  /\ (detected h w <> defaultLanguage ->
      ownProperty (detected h w)
        (translations (snd (init h (FetchFailed error) (FetchJson data) w)))
      = ownProperty (detected h w) (translations w)
      /\ (truthy (cached h w defaultLanguage) = false ->
          ownProperty defaultLanguage
            (translations (snd (init h (FetchFailed error) (FetchJson data) w)))
          = Some data)
      /\ ((forall props, truthy (inherited h (VObject props) (detected h w)) = false) ->
          forall key,
            translate h key (snd (init h (FetchFailed error) (FetchJson data) w))
            = (VString key,
               warned key (snd (init h (FetchFailed error) (FetchJson data) w))))).
Proof.
  intros Hmiss. split; [apply init_currentLanguage|].
  destruct (init_loads (FetchFailed error) (FetchJson data) w)
    as (w0 & Hc & Ht & Hd & Hl & Hinit).
  assert (Hcached : forall lang, cached h w0 lang = cached h w lang).
  { intros lang. unfold cached. rewrite Ht. reflexivity. }
  destruct (loadLanguage_cases h (detected h w) (FetchFailed error) w0) as [_ Hfail].
  rewrite Hcached in Hfail. destruct (Hfail Hmiss) as [Hfst Htr].
  rewrite Hfst in Hinit. unfold bind at 1 2 in Hinit. cbn [fst snd] in Hinit.
  set (w1 := snd (console_ Error [str "[i18n] Failed to initialize:"; error]
                    (snd (loadLanguage h (detected h w) (FetchFailed error) w0)))) in *.
  assert (Ht1 : translations w1 = translations w).
  { unfold w1. cbn [console_ snd translations]. rewrite Htr. exact Ht. }
  assert (Hd1 : document w1 = document w).
  { unfold w1. cbn [console_ snd document].
    rewrite (loadLanguage_keeps_document h). exact Hd. }
  assert (Hl1 : changeListeners w1 = changeListeners w).
  { unfold w1. cbn [console_ snd changeListeners].
    rewrite (loadLanguage_keeps_listeners h). exact Hl. }
  assert (Hres : exists v, fst (loadLanguage h defaultLanguage (FetchJson data) w1)
                           = Resolved v).
  { destruct (loadLanguage_cases h defaultLanguage (FetchJson data) w1) as [Hhit Hmiss'].
    destruct (truthy (cached h w1 defaultLanguage));
      [destruct (Hhit eq_refl) | destruct (Hmiss' eq_refl)]; eauto. }
  destruct Hres as [v Hv]. rewrite Hv in Hinit.
  set (w2 := snd (loadLanguage h defaultLanguage (FetchJson data) w1)) in *.
  rewrite Hinit.
  split; [|split].
  - rewrite (applyTranslations_keeps_listeners h). unfold w2.
    rewrite (loadLanguage_keeps_listeners h). exact Hl1.
  - rewrite (applyTranslations_document_eq h). cbn [selectValue]. unfold w2.
    rewrite (loadLanguage_keeps_document h), Hd1. reflexivity.
  - intros Hne. rewrite (applyTranslations_keeps_translations h).
    assert (Hown : ownProperty (detected h w) (translations w2)
                   = ownProperty (detected h w) (translations w)).
    { unfold w2.
      destruct (loadLanguage_cases h defaultLanguage (FetchJson data) w1) as [Hhit Hmiss'].
      destruct (truthy (cached h w1 defaultLanguage)).
      - destruct (Hhit eq_refl) as [_ ->]. rewrite Ht1. reflexivity.
      - destruct (Hmiss' eq_refl) as [_ ->]. rewrite Ht1.
        apply ownProperty_setProperty_ne, Hne. }
    split; [exact Hown|]. split.
    + intros Hdef. unfold w2.
      destruct (loadLanguage_cases h defaultLanguage (FetchJson data) w1) as [_ Hmiss'].
      assert (Hc1 : cached h w1 defaultLanguage = cached h w defaultLanguage).
      { unfold cached. rewrite Ht1. reflexivity. }
      rewrite Hc1 in Hmiss'. destruct (Hmiss' Hdef) as [_ ->].
      apply ownProperty_setProperty_eq.
    + intros Hhost key.
      set (w3 := snd (applyTranslations h w2)).
      assert (Hdict : truthy (cached h w3 (currentLanguage w3)) = false).
      { unfold w3. rewrite (keeps_applyTranslations h).
        unfold cached. rewrite (applyTranslations_keeps_translations h).
        assert (Hc2 : currentLanguage w2 = detected h w).
        { unfold w2. rewrite (keeps_loadLanguage h). unfold w1.
          cbn [console_ snd currentLanguage]. rewrite (keeps_loadLanguage h). exact Hc. }
        rewrite Hc2. simpl. rewrite Hown.
        destruct (ownProperty (detected h w) (translations w)) as [x|] eqn:Hx.
        - unfold cached in Hmiss. simpl in Hmiss. rewrite Hx in Hmiss. exact Hmiss.
        - apply Hhost. }
      unfold translate, bind, get. cbn [fst snd].
      destruct (split 0x2E key) as [|k rest] eqn:Hk;
        [exfalso; eapply split_nonempty; exact Hk|].
      apply translateLoop_gives_up. fold w3. rewrite Hdict. reflexivity.
Qed.

End Fallback.

Section Initialisation.
Import i18n.
Local Open Scope js_scope.
Variable h : Host.

Lemma snd_bind {A B : Type} (m : M A) (k : A -> M B) (w : World) :
  snd (bind m k w) = snd (k (fst (m w)) (snd (m w))).
Proof. reflexivity. Qed.

Lemma console_document (level : Level) (args : list JSValue) (w : World) :
  document (snd (console_ level args w)) = document w.
Proof. reflexivity. Qed.

Lemma console_listeners (level : Level) (args : list JSValue) (w : World) :
  changeListeners (snd (console_ level args w)) = changeListeners w.
Proof. reflexivity. Qed.

Lemma setupEventListeners_effect (w : World) :
  document (snd (setupEventListeners w)) = document w
  /\ changeListeners (snd (setupEventListeners w))
     = (changeListeners w
        + match selectValue (document w) with Some _ => 1 | None => 0 end)%nat.
Proof.
  unfold setupEventListeners, bind, get. cbn [fst snd].
  destruct (selectValue (document w));
    cbn [addChangeListener ret snd document changeListeners]; split;
    try reflexivity; lia.
Qed.

Lemma updateLanguageSelector_listeners (w : World) :
  changeListeners (snd (updateLanguageSelector w)) = changeListeners w.
Proof.
  unfold updateLanguageSelector, bind, get. cbn [fst snd].
  destruct (selectValue (document w)); reflexivity.
Qed.

Lemma init_then (w : World) :
  document (snd ((applyTranslations h ;; updateLanguageSelector ;;
                  setupEventListeners ;;
                  console_ Log [str "[i18n] Initialization complete"]) w))
  = document (snd ((applyTranslations h ;; updateLanguageSelector) w))
  /\ changeListeners (snd ((applyTranslations h ;; updateLanguageSelector ;;
                  setupEventListeners ;;
                  console_ Log [str "[i18n] Initialization complete"]) w))
     = (changeListeners w
        + match selectValue (document w) with Some _ => 1 | None => 0 end)%nat.
Proof.
  pose proof (applied_document h w) as Hdoc.
  rewrite !snd_bind in *.
  set (w2 := snd (updateLanguageSelector (snd (applyTranslations h w)))) in *.
  destruct (setupEventListeners_effect w2) as [Hd Hl].
  rewrite console_document, console_listeners.
  rewrite Hd, Hl. split; [reflexivity|].
  unfold w2 at 1. rewrite updateLanguageSelector_listeners.
  rewrite (applyTranslations_keeps_listeners h), Hdoc. cbn [selectValue].
  destruct (selectValue (document w)); reflexivity.
Qed.
(** When the dictionary of the detected language is at hand, cached or
    fetched, [init] makes that language active, translates the page with it,
    shows it in the selector and adds one [change] listener to the selector;
    on a page without selector it adds none. *)
Theorem init_resolved (outcome fallback : FetchOutcome) (w : World) :
  truthy (cached h w (detected h w)) = true \/ (exists data, outcome = FetchJson data) ->
  currentLanguage (snd (init h outcome fallback w)) = detected h w
  /\ htmlLang (document (snd (init h outcome fallback w))) = VString (detected h w)
  /\ selectValue (document (snd (init h outcome fallback w)))
     = (fun _ => VString (detected h w)) <$> selectValue (document w)
  /\ changeListeners (snd (init h outcome fallback w))
     = (changeListeners w
        + match selectValue (document w) with Some _ => 1 | None => 0 end)%nat.
Proof.
  intros Hload. split; [apply init_currentLanguage|].
  destruct (init_loads h outcome fallback w) as (w0 & Hc & Ht & Hd & Hl & ->).
  assert (Hcached : cached h w0 (detected h w) = cached h w (detected h w)).
  { unfold cached. rewrite Ht. reflexivity. }
  destruct (loadLanguage_cases h (detected h w) outcome w0) as [Hhit Hmiss].
  rewrite Hcached in Hhit, Hmiss.
  assert (Hres : exists v, fst (loadLanguage h (detected h w) outcome w0) = Resolved v).
  { destruct (truthy (cached h w (detected h w))) eqn:Hcase.
    - eexists. apply (Hhit eq_refl).
    - destruct Hload as [? | [data ->]]; [discriminate|].
      eexists. apply (Hmiss eq_refl). }
  destruct Hres as [v ->].
  pose proof (keeps_loadLanguage h (detected h w) outcome w0) as Hc1.
  pose proof (loadLanguage_keeps_document h (detected h w) outcome w0) as Hd1.
  pose proof (loadLanguage_keeps_listeners h (detected h w) outcome w0) as Hl1.
  destruct (init_then (snd (loadLanguage h (detected h w) outcome w0))) as [-> ->].
  rewrite (applied_document h), Hc1, Hd1, Hl1, Hc, Hd, Hl.
  repeat split; reflexivity.
Qed.

End Initialisation.

Lemma setLanguage_outcomes_witness :
  i18n.document
    (snd (i18n.setLanguage standardHost (lit "fr") (i18n.FetchFailed VNull) sampleWorld))
  = sampleDocument
  /\ i18n.currentLanguage
       (snd (i18n.setLanguage standardHost (lit "fr") (i18n.FetchFailed VNull) sampleWorld))
     = lit "fr".
Proof.
  assert (Hs : supported (lit "fr")) by (unfold supported; vm_compute; set_solver).
  destruct (setLanguage_outcomes standardHost (lit "fr") (i18n.FetchFailed VNull)
              sampleWorld Hs) as ([Hc _] & _ & Hfail).
  split; [|exact Hc].
  refine (proj1 (Hfail _ _)).
  - vm_compute. reflexivity.
  - intros data. discriminate.
Defined.

(** A first visit with a German browser. *)
Lemma init_fallback_witness :
  i18n.currentLanguage
    (snd (i18n.init standardHost (i18n.FetchFailed VNull) (i18n.FetchJson sampleDictionary)
            (i18n.initial ∅ (sampleNavigator "de-DE") sampleDocument)))
  = lit "de".
Proof.
  refine (eq_trans (proj1 (init_fallback standardHost VNull sampleDictionary
            (i18n.initial ∅ (sampleNavigator "de-DE") sampleDocument) _)) _).
  - vm_compute. reflexivity.
  - vm_compute. reflexivity.
Defined.

Lemma init_resolved_witness :
  i18n.changeListeners
    (snd (i18n.init standardHost (i18n.FetchJson sampleDictionary) i18n.FetchPending
            (i18n.initial ∅ (sampleNavigator "de-DE") sampleDocument)))
  = 1%nat.
Proof.
  refine (eq_trans (proj2 (proj2 (proj2 (init_resolved standardHost
            (i18n.FetchJson sampleDictionary) i18n.FetchPending
            (i18n.initial ∅ (sampleNavigator "de-DE") sampleDocument) _)))) _).
  - right. eexists. reflexivity.
  - reflexivity.
Defined.
